(** * Chat-Server: the select() loop of src/server.cpp

    A shallow embedding of the server's two globals ([clients],
    [client_names]), of [broadcast] and of the [while (true)] loop of
    [main], followed by the properties of the session handling (join, chat
    line, departure), of [broadcast] and of the index-based scan.

    Conventions.
    - A descriptor is an [int], here a [Z]; the only arithmetic on [int]s
      is [i++] and [i--] on the loop index, whose overflow is undefined.
    - The code is written in a state monad over the two globals and the
      history of effects; an outcome is a result, undefined behaviour of
      C++ (an index or iterator out of range, a string constructor that
      runs off the buffer, signed overflow) or, for the for loop, the end
      of the fuel.
    - The operating system is a record of functions of the history: what
      select, accept and read answer.  A statement that holds for every
      such record holds whatever the clients do.
    - [send] and [close] are recorded as events; the code ignores their
      results.  Descriptors are taken to fit an [fd_set]. *)

From Stdlib Require Import ZArith String Ascii List Lia.
From stdpp Require Import gmap list strings.

Local Open Scope Z_scope.

(** ** Effects *)

(** One operand of a [std::cout << ... << std::endl] chain. *)
Inductive log_item :=
| LStr (s : string)
| LInt (n : Z).

(** What [read(client, buffer, 1024)] did: it failed, it met the end of the
    stream, or it delivered bytes. *)
Inductive read_result :=
| ReadError
| ReadEof
| ReadBytes (chunk : list ascii).

(** Everything the server does that is visible outside the two locals of
    the loop: system calls, console lines, the writes to the two global
    containers and the calls of [broadcast]. *)
Inductive event :=
| EvSelect (nfds : Z)
| EvAccept (ret : Z)
| EvRead (fd : Z) (r : read_result)
| EvSend (fd : Z) (msg : string)
| EvClose (fd : Z)
| EvCout (line : list log_item)
| EvCerr (line : list log_item)
| EvClientsPush (fd : Z)
| EvClientsErase (pos : nat)
| EvNamesInsert (fd : Z) (name : string)
| EvNamesErase (fd : Z)
| EvBroadcast (message : string) (sender_socket : Z).

(** The globals of server.cpp, with the history of effects so far. *)
Record Server := mkServer {
  clients : list Z;
  client_names : gmap Z string;
  trace : list event
}.

(** The operating system, as far as the server consults it.  An answer may
    depend on the whole history. *)
Record OS := mkOS {
  os_select : list event -> Z -> gset Z -> Z * gset Z;
  os_accept : list event -> Z;
  os_read : list event -> Z -> read_result
}.

(** ** A state monad with undefined behaviour *)

Inductive outcome (A : Type) :=
| Ret (a : A) (s : Server)
| Undefined
| OutOfFuel.
Arguments Ret {A} a s.
Arguments Undefined {A}.
Arguments OutOfFuel {A}.

Definition M (A : Type) := Server -> outcome A.

Definition ret {A} (a : A) : M A := fun s => Ret a s.

Definition bind {A B} (m : M A) (k : A -> M B) : M B :=
  fun s => match m s with
           | Ret a s' => k a s'
           | Undefined => Undefined
           | OutOfFuel => OutOfFuel
           end.

Notation "x <- m ;; k" := (bind m (fun x => k))
  (at level 100, m at next level, right associativity).
Notation "m ;;; k" := (bind m (fun _ => k))
  (at level 100, right associativity).

Definition undefined {A} : M A := fun _ => Undefined.
Definition out_of_fuel {A} : M A := fun _ => OutOfFuel.

Definition emit (e : event) : M unit :=
  fun s => Ret tt (mkServer (clients s) (client_names s) (trace s ++ [e])).

Definition get_clients : M (list Z) := fun s => Ret (clients s) s.
Definition get_names : M (gmap Z string) := fun s => Ret (client_names s) s.
Definition get_trace : M (list event) := fun s => Ret (trace s) s.

Definition set_clients (l : list Z) : M unit :=
  fun s => Ret tt (mkServer l (client_names s) (trace s)).
Definition set_names (m : gmap Z string) : M unit :=
  fun s => Ret tt (mkServer (clients s) m (trace s)).

(** ** Machine integers *)

Definition INT_MAX : Z := 2147483647.
Definition INT_MIN : Z := -2147483648.

(** [i++] and [i--] on an [int]: signed overflow is undefined. *)
Definition int_incr (i : Z) : M Z :=
  if i <? INT_MAX then ret (i + 1) else undefined.
Definition int_decr (i : Z) : M Z :=
  if INT_MIN <? i then ret (i - 1) else undefined.

(** The conversion of an [int] to [size_t] in [i < clients.size()] and in
    [clients[i]]. *)
Definition to_size_t (i : Z) : Z := i mod 2 ^ 64.

(** ** The containers *)

(** [clients.size()] *)
Definition clients_size : M Z :=
  l <- get_clients ;; ret (Z.of_nat (length l)).

(** [clients[i]]: no bounds check, so an index past the end is undefined. *)
Definition clients_at (i : Z) : M Z :=
  l <- get_clients ;;
  match l !! Z.to_nat (to_size_t i) with
  | Some c => ret c
  | None => undefined
  end.

(** [clients.push_back(fd)] *)
Definition clients_push_back (fd : Z) : M unit :=
  l <- get_clients ;;
  set_clients (l ++ [fd]) ;;;
  emit (EvClientsPush fd).

(** [clients.erase(clients.begin() + i)]: the iterator must point at an
    element. *)
Definition clients_erase (i : Z) : M unit :=
  l <- get_clients ;;
  if (0 <=? i) && (i <? Z.of_nat (length l)) then
    set_clients (delete (Z.to_nat i) l) ;;;
    emit (EvClientsErase (Z.to_nat i))
  else undefined.

(** [client_names.find(fd) == client_names.end()] *)
Definition names_absent (fd : Z) : M bool :=
  m <- get_names ;;
  ret (match m !! fd with Some _ => false | None => true end).

(** [client_names[fd]] read as a value: [operator[]] of [std::map] first
    inserts an empty string when the key is missing. *)
Definition names_index (fd : Z) : M string :=
  m <- get_names ;;
  match m !! fd with
  | Some name => ret name
  | None =>
      set_names (<[fd := EmptyString]> m) ;;;
      emit (EvNamesInsert fd EmptyString) ;;;
      ret EmptyString
  end.

(** [client_names[fd] = name] *)
Definition names_assign (fd : Z) (name : string) : M unit :=
  m <- get_names ;;
  set_names (<[fd := name]> m) ;;;
  emit (EvNamesInsert fd name).

(** [client_names.erase(fd)]: nothing happens when the key is missing. *)
Definition names_erase (fd : Z) : M unit :=
  m <- get_names ;;
  match m !! fd with
  | Some _ => set_names (delete fd m) ;;; emit (EvNamesErase fd)
  | None => ret tt
  end.

(** ** System calls and console *)

Definition send (fd : Z) (msg : string) : M unit := emit (EvSend fd msg).
Definition sys_close (fd : Z) : M unit := emit (EvClose fd).
Definition cout (line : list log_item) : M unit := emit (EvCout line).
Definition cerr (line : list log_item) : M unit := emit (EvCerr line).

(** ** The read buffer *)

Definition BUFFER_SIZE : nat := 1024.

(** The return value of [read(client, buffer, 1024)]: at most 1024 bytes
    are transferred. *)
Definition valread (r : read_result) : Z :=
  match r with
  | ReadError => -1
  | ReadEof => 0
  | ReadBytes chunk => Z.of_nat (length (take BUFFER_SIZE chunk))
  end.

(** [buffer] after [memset(buffer, 0, sizeof(buffer))] and the read. *)
Definition buffer_after (r : read_result) : list ascii :=
  match r with
  | ReadError | ReadEof => replicate BUFFER_SIZE zero
  | ReadBytes chunk =>
      take BUFFER_SIZE chunk
        ++ replicate (BUFFER_SIZE - length (take BUFFER_SIZE chunk)) zero
  end.

(** [std::string message(buffer)]: the bytes before the first NUL.  When
    the array holds no NUL the constructor reads past its end. *)
Fixpoint c_string (buffer : list ascii) : option string :=
  match buffer with
  | [] => None
  | ch :: rest =>
      if ascii_dec ch zero then Some EmptyString
      else match c_string rest with
           | Some str => Some (String ch str)
           | None => None
           end
  end.

Definition message_of (r : read_result) : M string :=
  match c_string (buffer_after r) with
  | Some message => ret message
  | None => undefined
  end.

(** ** broadcast (server.cpp, lines 40-46) *)

Fixpoint for_each {A} (l : list A) (body : A -> M unit) : M unit :=
  match l with
  | [] => ret tt
  | x :: rest => body x ;;; for_each rest body
  end.

Definition broadcast (message : string) (sender_socket : Z) : M unit :=
  emit (EvBroadcast message sender_socket) ;;;
  l <- get_clients ;;
  for_each l (fun client =>
    if decide (client ≠ sender_socket) then send client message
    else ret tt).

(** ** The session handling of main (server.cpp, lines 153-199) *)

(** Lines 153-172: [valread <= 0].  The result is [i] after [i--]. *)
Definition on_disconnect (i client : Z) : M Z :=
  leaving_user <- names_index client ;;
  (if decide (leaving_user = EmptyString) then
     cout [LStr "Client (socket "; LInt client; LStr ")"]
   else
     cout [LStr leaving_user; LStr " disconnected"] ;;;
     broadcast (leaving_user +:+ " has left the chat") (-1)) ;;;
  sys_close client ;;;
  clients_erase i ;;;
  names_erase client ;;;
  int_decr i.

(** Lines 174-199: data arrived. *)
Definition on_data (client : Z) (r : read_result) : M unit :=
  message <- message_of r ;;
  absent <- names_absent client ;;
  if absent : bool then
    names_assign client message ;;;
    cout [LStr message; LStr " has joined the chat!"] ;;;
    broadcast (message +:+ " has joined the chat!") client
  else
    username <- names_index client ;;
    cout [LStr username; LStr ": "; LStr message] ;;;
    broadcast (username +:+ ": " +:+ message) client.

(** What the loop body does with the result of one read from
    [clients[i]]; the result is the value of [i] at the end of the body. *)
Definition session (i client : Z) (r : read_result) : M Z :=
  if valread r <=? 0 then on_disconnect i client
  else on_data client r ;;; ret i.

(** ** One pass of the while loop (server.cpp, lines 86-202) *)

Section Loop.

Variable os : OS.
Variable server_fd : Z.

(** [select(max_fd + 1, &read_fds, NULL, NULL, NULL)]: the call leaves in
    [read_fds] those descriptors of the set built before it that are
    ready. *)
Definition sys_select (nfds : Z) (interest : gset Z) : M (Z * gset Z) :=
  history <- get_trace ;;
  emit (EvSelect nfds) ;;;
  ret (fst (os_select os history nfds interest),
       interest ∩ snd (os_select os history nfds interest)).

Definition sys_accept : M Z :=
  history <- get_trace ;;
  emit (EvAccept (os_accept os history)) ;;;
  ret (os_accept os history).

Definition sys_read (fd : Z) : M read_result :=
  history <- get_trace ;;
  emit (EvRead fd (os_read os history fd)) ;;;
  ret (os_read os history fd).

(** Lines 118-136.  The result tells whether the pass goes on to the scan
    of the clients: [false] is the [continue] of line 126. *)
Definition accept_phase (read_fds : gset Z) : M bool :=
  if decide (server_fd ∈ read_fds) then
    new_client <- sys_accept ;;
    if new_client <? 0 then
      cerr [LStr "Accept failed!"] ;;;
      ret false
    else
      clients_push_back new_client ;;;
      cout [LStr "New client connected (socket "; LInt new_client; LStr ")"] ;;;
      send new_client "Enter your username: " ;;;
      ret true
  else ret true.

(** Lines 142-200: the body of the for loop at index [i].  The result is
    the value of the local [client] and the value of [i] at the end of the
    body. *)
Definition visit (read_fds : gset Z) (i : Z) : M (Z * Z) :=
  client <- clients_at i ;;
  if decide (client ∈ read_fds) then
    r <- sys_read client ;;
    i' <- session i client r ;;
    ret (client, i')
  else ret (client, i).

(** Line 141: [for (int i = 0; i < clients.size(); i++)], from the test
    on.  The result lists the successive values of [client]. *)
Fixpoint scan_loop (fuel : nat) (read_fds : gset Z) (i : Z) : M (list Z) :=
  n <- clients_size ;;
  if to_size_t i <? n then
    match fuel with
    | O => out_of_fuel
    | S fuel' =>
        v <- visit read_fds i ;;
        i' <- int_incr (snd v) ;;
        visited <- scan_loop fuel' read_fds i' ;;
        ret (fst v :: visited)
    end
  else ret [].

Definition scan (read_fds : gset Z) : M (list Z) :=
  l <- get_clients ;;
  scan_loop (length l) read_fds 0.

(** Lines 93-100: the largest descriptor of the set. *)
Definition max_fd_of (l : list Z) : Z :=
  fold_left (fun max_fd client => if client >? max_fd then client else max_fd)
            l server_fd.

(** One pass of [while (true)]. *)
Definition iteration : M (list Z) :=
  l <- get_clients ;;
  sel <- sys_select (max_fd_of l + 1) ({[server_fd]} ∪ list_to_set l) ;;
  if fst sel <? 0 then
    cerr [LStr "Select error"] ;;;
    ret []
  else
    go_on <- accept_phase (snd sel) ;;
    if go_on : bool then scan (snd sel) else ret [].

(** The first [n] passes of the loop. *)
Fixpoint run (n : nat) : M unit :=
  match n with
  | O => ret tt
  | S k => iteration ;;; run k
  end.

End Loop.

(** The server when the loop is entered. *)
Definition initial : Server := mkServer [] ∅ [].

(** ** Reading the history *)

(** The messages sent to [fd], in order. *)
Definition sent_to (fd : Z) (tr : list event) : list string :=
  omap (fun e => match e with
                 | EvSend d msg => if decide (d = fd) then Some msg else None
                 | _ => None
                 end) tr.

(** All the sends, in order. *)
Definition sends (tr : list event) : list (Z * string) :=
  omap (fun e => match e with
                 | EvSend d msg => Some (d, msg)
                 | _ => None
                 end) tr.

Definition is_names_write (e : event) : bool :=
  match e with
  | EvNamesInsert _ _ | EvNamesErase _ => true
  | _ => false
  end.

Definition is_broadcast (e : event) : bool :=
  match e with
  | EvBroadcast _ _ => true
  | _ => false
  end.

Definition is_clients_write (e : event) : bool :=
  match e with
  | EvClientsPush _ | EvClientsErase _ => true
  | _ => false
  end.

(** The server after some more events. *)
Definition add_events (s : Server) (evs : list event) : Server :=
  mkServer (clients s) (client_names s) (trace s ++ evs).

(** The sends of one call of [broadcast]. *)
Definition deliveries (message : string) (sender_socket : Z) (l : list Z)
  : list event :=
  map (fun client => EvSend client message)
      (filter (fun client => client ≠ sender_socket) l).

(** The server has a connection on each descriptor at most once. *)
Definition distinct (s : Server) : Prop := NoDup (clients s).

(** A chunk from which [std::string message(buffer)] is defined. *)
Definition decodable (r : read_result) : Prop :=
  is_Some (c_string (buffer_after r)).

(** ** Small servers *)

Definition hi_chunk : list ascii := ["h"%char; "i"%char].
Definition bob_chunk : list ascii := ["b"%char; "o"%char; "b"%char].

(** Two joined connections. *)
Definition alice_and_bob : Server :=
  mkServer [4; 5] (<[4 := "alice"]> (<[5 := "bob"]> ∅)) [].

(** A joined connection and one that has not sent its username. *)
Definition alice_then_5 : Server :=
  mkServer [4; 5] (<[4 := "alice"]> ∅) [].

(** A connection whose recorded username is empty. *)
Definition nameless_4 : Server :=
  mkServer [4] (<[4 := EmptyString]> ∅) [].

Definition three_clients : Server :=
  mkServer [4; 5; 6] (<[5 := "bob"]> ∅) [].

(** Every read meets the end of the stream. *)
Definition closing_os : OS :=
  mkOS (fun _ _ _ => (1, {[5]})) (fun _ => -1) (fun _ _ => ReadEof).

(** The listening socket 3 is ready and accept fails. *)
Definition refusing_os : OS :=
  mkOS (fun _ _ _ => (2, {[3; 4]})) (fun _ => -1)
       (fun _ _ => ReadBytes hi_chunk).

(** The listening socket 3 is ready and accept gives descriptor 4. *)
Definition accepting_os : OS :=
  mkOS (fun _ _ _ => (1, {[3]})) (fun _ => 4) (fun _ _ => ReadEof).

(** The server after one pass with [accepting_os]. *)
Definition one_pass_server : Server :=
  mkServer [4] ∅
    [EvSelect 4; EvAccept 4; EvClientsPush 4;
     EvCout [LStr "New client connected (socket "; LInt 4; LStr ")"];
     EvSend 4 "Enter your username: "].

(** The number of passes begun in a history. *)
Definition passes_begun (history : list event) : nat :=
  length (List.filter (fun e => match e with EvSelect _ => true | _ => false end)
                      history).

(** The scenario of two clients: 4 connects and sends "alice", 5 connects
    and sends "bob", 4 sends "hi", 5 leaves.  The listening socket is 3. *)
Definition two_clients_os : OS :=
  mkOS (fun history _ _ =>
          match passes_begun history with
          | 0%nat | 2%nat => (1, {[3]})
          | 1%nat | 4%nat => (1, {[4]})
          | 3%nat | 5%nat => (1, {[5]})
          | _ => (-1, ∅)
          end)
       (fun history =>
          match passes_begun history with
          | 1%nat => 4
          | 3%nat => 5
          | _ => -1
          end)
       (fun history _ =>
          match passes_begun history with
          | 2%nat => ReadBytes (list_ascii_of_string "alice")
          | 4%nat => ReadBytes bob_chunk
          | 5%nat => ReadBytes hi_chunk
          | _ => ReadEof
          end).

(** ** What a path of the session handling leaves behind *)

(** The name that line 155 reads. *)
Definition leaving_name (c : Z) (s : Server) : string :=
  default EmptyString (client_names s !! c).

(** The events of lines 155-170. *)
Definition departure_events (i : nat) (c : Z) (s : Server) : list event :=
  (match client_names s !! c with
   | Some _ => []
   | None => [EvNamesInsert c EmptyString]
   end)
  ++ (if decide (leaving_name c s = EmptyString) then
        [EvCout [LStr "Client (socket "; LInt c; LStr ")"]]
      else
        EvCout [LStr (leaving_name c s); LStr " disconnected"]
        :: EvBroadcast (leaving_name c s +:+ " has left the chat") (-1)
        :: deliveries (leaving_name c s +:+ " has left the chat") (-1)
                      (clients s))
  ++ [EvClose c; EvClientsErase i; EvNamesErase c].

(** The events of lines 181-198 for the message [message]. *)
Definition data_events (c : Z) (message : string) (s : Server) : list event :=
  match client_names s !! c with
  | None =>
      EvNamesInsert c message
      :: EvCout [LStr message; LStr " has joined the chat!"]
      :: EvBroadcast (message +:+ " has joined the chat!") c
      :: deliveries (message +:+ " has joined the chat!") c (clients s)
  | Some username =>
      EvCout [LStr username; LStr ": "; LStr message]
      :: EvBroadcast (username +:+ ": " +:+ message) c
      :: deliveries (username +:+ ": " +:+ message) c (clients s)
  end.

(** The map after lines 181-198. *)
Definition data_names (c : Z) (message : string) (s : Server)
  : gmap Z string :=
  match client_names s !! c with
  | None => <[c := message]> (client_names s)
  | Some _ => client_names s
  end.

(** The bytes before the first NUL of [l], all of [l] when it has none. *)
Fixpoint until_nul (l : list ascii) : string :=
  match l with
  | [] => EmptyString
  | ch :: rest =>
      if ascii_dec ch zero then EmptyString else String ch (until_nul rest)
  end.

(** The descriptors read, in order. *)
Definition reads_of (tr : list event) : list Z :=
  omap (fun e => match e with EvRead fd _ => Some fd | _ => None end) tr.

Definition nonneg (s : Server) : Prop := Forall (fun c => 0 <= c) (clients s).

(** [m] keeps [P]: when [m] returns from a server with [P], the server it
    leaves has [P]. *)
Definition keeps {A} (P : Server -> Prop) (m : M A) : Prop :=
  forall s, P s -> match m s with Ret _ s' => P s' | _ => True end.

(** The ConnectionSet that the pushes and erasures of a history make of
    [l]. *)
Fixpoint replay (tr : list event) (l : list Z) : list Z :=
  match tr with
  | [] => l
  | EvClientsPush fd :: rest => replay rest (l ++ [fd])
  | EvClientsErase pos :: rest => replay rest (delete pos l)
  | _ :: rest => replay rest l
  end.

(** accept hands out no descriptor that is still tracked: a tracked
    descriptor is open, line 168 closing it when line 169 removes it. *)
Definition fresh_accepts (os : OS) : Prop :=
  forall history, os_accept os history ∉ replay history [].

(** An operating system of that kind: accept gives the descriptor after
    the largest tracked one, no read fails. *)
Definition next_fd_os : OS :=
  mkOS (fun _ _ interest => (1, interest))
       (fun history => 1 + fold_right Z.max 3 (replay history []))
       (fun _ _ => ReadBytes hi_chunk).

(** The ConnectionSet is what the history made, without repetition. *)
Definition tracked_once (s : Server) : Prop :=
  clients s = replay (trace s) [] /\ NoDup (clients s).

(** Everything is ready, accept gives descriptor 6, each read gives
    "hi". *)
Definition busy_os : OS :=
  mkOS (fun _ _ interest => (1, interest)) (fun _ => 6)
       (fun _ _ => ReadBytes hi_chunk).

(** ** main before the loop (server.cpp, lines 48-77) *)

(** What socket, bind and listen return. *)
Record Boot := mkBoot {
  socket_ret : Z;
  bind_ret : Z;
  listen_ret : Z
}.

(** The calls of the socket set-up, with the descriptor, the port bound
    (before [htons]) and the backlog. *)
Inductive boot_call :=
| CallSocket
| CallBind (fd port : Z)
| CallListen (fd backlog : Z).

(** What main has come to: it returned with a status after some console
    lines, or it is in its loop. *)
Inductive main_result :=
| Exited (status : Z) (console : list event)
| InLoop (o : outcome unit).

(** main with the first [n] passes of its loop: the calls of the set-up
    it made, and what it has come to. *)
Definition main (b : Boot) (os : OS) (n : nat)
  : list boot_call * main_result :=
  let server_fd := socket_ret b in
  if server_fd =? -1 then
    ([CallSocket], Exited 1 [EvCerr [LStr "Socket creation failed!"]])
  else if bind_ret b <? 0 then
    ([CallSocket; CallBind server_fd 8080],
     Exited 1 [EvCerr [LStr "Bind failed!"]])
  else if listen_ret b <? 0 then
    ([CallSocket; CallBind server_fd 8080; CallListen server_fd 3],
     Exited 1 [EvCerr [LStr "Listen failed!"]])
  else
    ([CallSocket; CallBind server_fd 8080; CallListen server_fd 3],
     InLoop ((cout [LStr "Server listening on port 8080..."] ;;;
              run os server_fd n) initial)).

(** ** Properties of whole histories *)

(** Every UsernameMap entry belongs to a connection of the ConnectionSet. *)
Definition names_tracked (s : Server) : Prop :=
  forall d, is_Some (client_names s !! d) -> d ∈ clients s.

(** How often accept returned [fd]. *)
Definition accepted (fd : Z) (tr : list event) : nat :=
  length (List.filter (fun e => match e with
                                | EvAccept d => bool_decide (d = fd)
                                | _ => false
                                end) tr).

(** How often [fd] was closed. *)
Definition closed (fd : Z) (tr : list event) : nat :=
  length (List.filter (fun e => match e with
                                | EvClose d => bool_decide (d = fd)
                                | _ => false
                                end) tr).

(** Each descriptor that accept returned is tracked or was closed, as often
    as it was returned. *)
Definition accounted (s : Server) : Prop :=
  forall fd,
    0 <= fd ->
    accepted fd (trace s)
    = (count_occ Z.eq_dec (clients s) fd + closed fd (trace s))%nat.

(** Each send, read and close of the history [tr], begun with the
    ConnectionSet [l], is on a descriptor of the ConnectionSet of that
    moment. *)
Fixpoint on_tracked (tr : list event) (l : list Z) : Prop :=
  match tr with
  | [] => True
  | e :: rest =>
      match e with
      | EvSend fd _ | EvRead fd _ | EvClose fd => fd ∈ l
      | _ => True
      end
      /\ on_tracked rest (replay [e] l)
  end.

Definition served (s : Server) : Prop :=
  clients s = replay (trace s) [] /\ on_tracked (trace s) [].

(** How often a read from [fd] failed or met the end of the stream. *)
Definition failed_reads (fd : Z) (tr : list event) : nat :=
  length (List.filter (fun e => match e with
                                | EvRead d r =>
                                    bool_decide (d = fd) && (valread r <=? 0)
                                | _ => false
                                end) tr).

(** A descriptor was closed as often as a read from it failed. *)
Definition closes_match_failed_reads (s : Server) : Prop :=
  forall fd, closed fd (trace s) = failed_reads fd (trace s).

(** In the history [tr], begun with the ConnectionSet [l], each call of
    [broadcast] is followed at once by its sends: one to each descriptor
    of the ConnectionSet of that moment other than the excluded one, in
    the order of the set. *)
Fixpoint broadcasts_delivered (tr : list event) (l : list Z) : Prop :=
  match tr with
  | [] => True
  | e :: rest =>
      match e with
      | EvBroadcast message excl => deliveries message excl l `prefix_of` rest
      | _ => True
      end
      /\ broadcasts_delivered rest (replay [e] l)
  end.

Definition heard (s : Server) : Prop :=
  clients s = replay (trace s) [] /\ broadcasts_delivered (trace s) [].

(** * Properties *)

(** ** The monad *)

Lemma bind_Ret {A B} (m : M A) (k : A -> M B) s a s' :
  m s = Ret a s' -> bind m k s = k a s'.
Proof. intros E. unfold bind. now rewrite E. Qed.

Lemma add_events_nil s : add_events s [] = s.
Proof. destruct s. unfold add_events. simpl. now rewrite app_nil_r. Qed.

Lemma add_events_app s e1 e2 :
  add_events (add_events s e1) e2 = add_events s (e1 ++ e2).
Proof. unfold add_events. simpl. now rewrite app_assoc. Qed.

Lemma emit_run e s : emit e s = Ret tt (add_events s [e]).
Proof. reflexivity. Qed.

(** ** broadcast *)

Lemma for_each_send message excl l s :
  for_each l (fun client =>
    if decide (client ≠ excl) then send client message else ret tt) s
  = Ret tt (add_events s (deliveries message excl l)).
Proof.
  revert s. induction l as [|c l IH]; intros s.
  - simpl. unfold ret. now rewrite add_events_nil.
  - simpl. unfold bind at 1. unfold deliveries. rewrite filter_cons.
    destruct (decide (c ≠ excl)) as [Hc|Hc].
    + unfold send. rewrite emit_run, IH. now rewrite add_events_app.
    + apply IH.
Qed.

Lemma broadcast_run message excl s :
  broadcast message excl s
  = Ret tt (add_events s (EvBroadcast message excl
                            :: deliveries message excl (clients s))).
Proof.
  unfold broadcast. rewrite (bind_Ret _ _ _ _ _ (emit_run _ s)).
  unfold bind, get_clients. rewrite for_each_send.
  now rewrite add_events_app.
Qed.

Lemma sent_to_app fd t1 t2 :
  sent_to fd (t1 ++ t2) = sent_to fd t1 ++ sent_to fd t2.
Proof. unfold sent_to. apply omap_app. Qed.

Lemma sent_to_deliveries fd message excl l :
  sent_to fd (deliveries message excl l)
  = if decide (fd = excl) then []
    else replicate (count_occ Z.eq_dec l fd) message.
Proof.
  unfold deliveries. induction l as [|c l IH].
  - simpl. now destruct (decide (fd = excl)).
  - rewrite filter_cons. simpl count_occ.
    destruct (decide (c ≠ excl)) as [Hc|Hc].
    + simpl. rewrite IH. destruct (decide (c = fd)) as [->|Hn].
      * destruct (decide (fd = excl)); [congruence|].
        destruct (Z.eq_dec fd fd); [reflexivity|congruence].
      * destruct (decide (fd = excl)); [reflexivity|].
        destruct (Z.eq_dec c fd); [congruence|reflexivity].
    + rewrite IH. destruct (decide (fd = excl)) as [He|He]; [reflexivity|].
      destruct (Z.eq_dec c fd); [|reflexivity].
      exfalso. apply Hc. congruence.
Qed.

Lemma count_occ_NoDup_1 (l : list Z) c :
  NoDup l -> c ∈ l -> count_occ Z.eq_dec l c = 1%nat.
Proof.
  intros Hd Hin. apply NoDup_ListNoDup in Hd. apply list_elem_of_In in Hin.
  pose proof (proj1 (List.NoDup_count_occ Z.eq_dec l) Hd c) as Hle.
  pose proof (proj1 (count_occ_In Z.eq_dec l c) Hin). lia.
Qed.

Lemma filter_not_sentinel (l : list Z) :
  Forall (fun c => 0 <= c) l -> filter (fun c => c ≠ -1) l = l.
Proof.
  induction 1 as [|c l Hc _ IH]; [reflexivity|].
  rewrite filter_cons. destruct (decide (c ≠ -1)); [now rewrite IH|lia].
Qed.

(** ** The containers *)

Lemma names_index_Some c u s :
  client_names s !! c = Some u -> names_index c s = Ret u s.
Proof. intros E. unfold names_index, bind, get_names. now rewrite E. Qed.

Lemma names_index_None c s :
  client_names s !! c = None ->
  names_index c s
  = Ret EmptyString
        (mkServer (clients s) (<[c := EmptyString]> (client_names s))
                  (trace s ++ [EvNamesInsert c EmptyString])).
Proof. intros E. unfold names_index, bind, get_names. now rewrite E. Qed.

Lemma names_erase_Some c u s :
  client_names s !! c = Some u ->
  names_erase c s
  = Ret tt (mkServer (clients s) (delete c (client_names s))
                     (trace s ++ [EvNamesErase c])).
Proof. intros E. unfold names_erase, bind, get_names. now rewrite E. Qed.

Lemma clients_erase_run i s :
  clients_erase i s
  = if (0 <=? i) && (i <? Z.of_nat (length (clients s))) then
      Ret tt (mkServer (delete (Z.to_nat i) (clients s)) (client_names s)
                       (trace s ++ [EvClientsErase (Z.to_nat i)]))
    else Undefined.
Proof.
  unfold clients_erase, bind, get_clients.
  now destruct ((0 <=? i) && (i <? Z.of_nat (length (clients s)))).
Qed.

Lemma int_decr_run i s : 0 <= i -> int_decr i s = Ret (i - 1) s.
Proof.
  intros H. unfold int_decr.
  replace (INT_MIN <? i) with true; [reflexivity|].
  symmetry. apply Z.ltb_lt. unfold INT_MIN. lia.
Qed.

Lemma to_size_t_small (i : nat) :
  Z.of_nat i <= INT_MAX -> to_size_t (Z.of_nat i) = Z.of_nat i.
Proof.
  intros H. unfold to_size_t. apply Z.mod_small. unfold INT_MAX in H. lia.
Qed.

Lemma clients_at_run (i : nat) c s :
  Z.of_nat i <= INT_MAX -> clients s !! i = Some c ->
  clients_at (Z.of_nat i) s = Ret c s.
Proof.
  intros Hi E. unfold clients_at, bind, get_clients.
  rewrite to_size_t_small by assumption. rewrite Nat2Z.id. now rewrite E.
Qed.

(** ** The session handling, path by path *)

Lemma on_disconnect_run i c s :
  on_disconnect i c s
  = if (0 <=? i) && (i <? Z.of_nat (length (clients s))) then
      Ret (i - 1)
          (mkServer (delete (Z.to_nat i) (clients s))
                    (delete c (client_names s))
                    (trace s ++ departure_events (Z.to_nat i) c s))
    else Undefined.
Proof.
  unfold on_disconnect, departure_events, leaving_name.
  destruct (client_names s !! c) as [u|] eqn:Hn.
  - rewrite (bind_Ret _ _ _ _ _ (names_index_Some _ _ _ Hn)). simpl.
    destruct (decide (u = EmptyString)) as [Hu|Hu].
    + unfold cout, sys_close. rewrite (bind_Ret _ _ _ _ _ (emit_run _ _)).
      rewrite (bind_Ret _ _ _ _ _ (emit_run _ _)).
      unfold bind at 1. rewrite clients_erase_run. simpl.
      destruct ((0 <=? i) && (i <? Z.of_nat (length (clients s)))) eqn:Hr;
        [|reflexivity].
      erewrite bind_Ret by (apply (names_erase_Some c u); exact Hn).
      rewrite int_decr_run by lia. simpl. now rewrite <- !app_assoc.
    + unfold cout, sys_close.
      erewrite bind_Ret; cycle 1.
      { erewrite bind_Ret by apply emit_run. apply broadcast_run. }
      rewrite (bind_Ret _ _ _ _ _ (emit_run _ _)).
      unfold bind at 1. rewrite clients_erase_run. simpl.
      destruct ((0 <=? i) && (i <? Z.of_nat (length (clients s)))) eqn:Hr;
        [|reflexivity].
      erewrite bind_Ret by (apply (names_erase_Some c u); exact Hn).
      rewrite int_decr_run by lia. simpl. now rewrite <- !app_assoc.
  - rewrite (bind_Ret _ _ _ _ _ (names_index_None _ _ Hn)). simpl.
    unfold cout, sys_close. rewrite (bind_Ret _ _ _ _ _ (emit_run _ _)).
    rewrite (bind_Ret _ _ _ _ _ (emit_run _ _)).
    unfold bind at 1. rewrite clients_erase_run. simpl.
    destruct ((0 <=? i) && (i <? Z.of_nat (length (clients s)))) eqn:Hr;
      [|reflexivity].
    erewrite bind_Ret
      by (apply (names_erase_Some c EmptyString); simpl; apply lookup_insert_eq).
    rewrite int_decr_run by lia. simpl. rewrite <- !app_assoc. simpl.
    rewrite delete_insert_eq. reflexivity.
Qed.

Lemma on_data_run c r s :
  on_data c r s
  = match c_string (buffer_after r) with
    | Some message =>
        Ret tt (mkServer (clients s) (data_names c message s)
                         (trace s ++ data_events c message s))
    | None => Undefined
    end.
Proof.
  unfold on_data, message_of, data_names, data_events.
  destruct (c_string (buffer_after r)) as [message|]; [|reflexivity].
  unfold bind at 1. unfold ret at 1.
  unfold bind at 1. unfold names_absent at 1, bind at 1, get_names, ret.
  destruct (client_names s !! c) as [u|] eqn:Hn.
  - rewrite (bind_Ret _ _ _ _ _ (names_index_Some _ _ _ Hn)).
    unfold cout. rewrite (bind_Ret _ _ _ _ _ (emit_run _ _)).
    rewrite broadcast_run. rewrite add_events_app. reflexivity.
  - unfold names_assign, cout.
    erewrite bind_Ret; cycle 1.
    { unfold bind, get_names, set_names. simpl. apply emit_run. }
    rewrite (bind_Ret _ _ _ _ _ (emit_run _ _)).
    rewrite broadcast_run. unfold add_events. simpl.
    now rewrite <- !app_assoc.
Qed.

Lemma session_run i c r s :
  session i c r s
  = if valread r <=? 0 then on_disconnect i c s
    else match c_string (buffer_after r) with
         | Some message =>
             Ret i (mkServer (clients s) (data_names c message s)
                             (trace s ++ data_events c message s))
         | None => Undefined
         end.
Proof.
  unfold session. destruct (valread r <=? 0); [reflexivity|].
  unfold bind. rewrite on_data_run.
  now destruct (c_string (buffer_after r)).
Qed.

(** ** The message taken from the buffer *)

Lemma c_string_padded l n l' :
  c_string (l ++ replicate (S n) zero ++ l') = Some (until_nul l).
Proof.
  induction l as [|ch l IH].
  - simpl. now destruct (ascii_dec zero zero).
  - cbn [app c_string until_nul].
    destruct (ascii_dec ch zero); [reflexivity|]. now rewrite IH.
Qed.

Lemma c_string_with_nul l l' :
  zero ∈ l -> c_string (l ++ l') = Some (until_nul l).
Proof.
  induction l as [|ch l IH]; intros Hin.
  - inversion Hin.
  - simpl. destruct (ascii_dec ch zero); [reflexivity|].
    rewrite IH; [reflexivity|].
    apply elem_of_cons in Hin as [Hin|Hin]; [congruence|assumption].
Qed.

Lemma until_nul_verbatim l :
  zero ∉ l -> until_nul l = string_of_list_ascii l.
Proof.
  induction l as [|ch l IH]; intros Hn; [reflexivity|].
  simpl. destruct (ascii_dec ch zero) as [->|_].
  - exfalso. apply Hn. left.
  - rewrite IH; [reflexivity|]. intros H. apply Hn. now right.
Qed.

Lemma message_of_chunk chunk :
  (length chunk < BUFFER_SIZE)%nat ∨ zero ∈ take BUFFER_SIZE chunk ->
  c_string (buffer_after (ReadBytes chunk))
  = Some (until_nul (take BUFFER_SIZE chunk)).
Proof.
  intros [Hlen|Hin]; simpl buffer_after.
  - assert (exists k,
        (BUFFER_SIZE - length (take BUFFER_SIZE chunk))%nat = S k) as [k ->].
    { exists (BUFFER_SIZE - length chunk - 1)%nat. rewrite length_take. lia. }
    rewrite <- (app_nil_r (replicate _ zero)). apply c_string_padded.
  - now apply c_string_with_nul.
Qed.

Lemma valread_chunk chunk : chunk ≠ [] -> 0 < valread (ReadBytes chunk).
Proof.
  intros H. destruct chunk as [|ch chunk]; [congruence|].
  unfold valread, BUFFER_SIZE. rewrite length_take. simpl length. lia.
Qed.

Lemma valread_pos_ltb r : 0 < valread r -> (valread r <=? 0) = false.
Proof. intros H. apply Z.leb_gt. exact H. Qed.

Lemma valread_nonpos_leb r : valread r <= 0 -> (valread r <=? 0) = true.
Proof. intros H. apply Z.leb_le. exact H. Qed.

(** ** Reading the sends of a path *)

Lemma sent_to_deliveries_other d message excl l :
  d ≠ excl ->
  sent_to d (deliveries message excl l)
  = replicate (count_occ Z.eq_dec l d) message.
Proof.
  intros H. rewrite sent_to_deliveries. now destruct (decide (d = excl)).
Qed.

Lemma sent_to_deliveries_once d message excl l :
  NoDup l -> d ∈ l -> d ≠ excl ->
  sent_to d (deliveries message excl l) = [message].
Proof.
  intros Hd Hin Hne. rewrite sent_to_deliveries_other by assumption.
  now rewrite count_occ_NoDup_1.
Qed.

Lemma sent_to_deliveries_self message excl l :
  sent_to excl (deliveries message excl l) = [].
Proof.
  rewrite sent_to_deliveries. destruct (decide (excl = excl)); congruence.
Qed.

Lemma filter_broadcast_deliveries message excl l :
  List.filter is_broadcast (deliveries message excl l) = [].
Proof.
  unfold deliveries.
  induction (filter (fun client => client ≠ excl) l); simpl; auto.
Qed.

Lemma filter_names_deliveries message excl l :
  List.filter is_names_write (deliveries message excl l) = [].
Proof.
  unfold deliveries.
  induction (filter (fun client => client ≠ excl) l); simpl; auto.
Qed.

Lemma filter_clients_deliveries message excl l :
  List.filter is_clients_write (deliveries message excl l) = [].
Proof.
  unfold deliveries.
  induction (filter (fun client => client ≠ excl) l); simpl; auto.
Qed.

Lemma sends_deliveries message excl l :
  sends (deliveries message excl l)
  = map (fun d => (d, message)) (filter (fun d => d ≠ excl) l).
Proof.
  unfold deliveries, sends.
  induction (filter (fun client => client ≠ excl) l) as [|d l' IH];
    [reflexivity|]. simpl in *. now f_equal.
Qed.

(** ** Departures *)

Lemma index_in_range (i : nat) (c : Z) (l : list Z) :
  l !! i = Some c ->
  (0 <=? Z.of_nat i) && (Z.of_nat i <? Z.of_nat (length l)) = true.
Proof.
  intros E. apply lookup_lt_Some in E.
  apply andb_true_iff. split; [apply Z.leb_le|apply Z.ltb_lt]; lia.
Qed.

Lemma session_departure (i : nat) c r s :
  clients s !! i = Some c -> valread r <= 0 ->
  session (Z.of_nat i) c r s
  = Ret (Z.of_nat i - 1)
        (mkServer (delete i (clients s)) (delete c (client_names s))
                  (trace s ++ departure_events i c s)).
Proof.
  intros Hi Hv. rewrite session_run, (valread_nonpos_leb _ Hv).
  rewrite on_disconnect_run, (index_in_range _ _ _ Hi).
  now rewrite Nat2Z.id.
Qed.

Lemma removed_not_left (l : list Z) (i : nat) c :
  NoDup l -> l !! i = Some c -> c ∉ delete i l.
Proof.
  intros Hd Hi. rewrite <- (take_drop_middle l i c Hi) in Hd.
  rewrite delete_take_drop.
  apply NoDup_app in Hd as (_ & Hpre & Hpost).
  apply NoDup_cons in Hpost as [Hpost _].
  intros Hin. apply elem_of_app in Hin as [Hin|Hin].
  - apply (Hpre c Hin). left.
  - contradiction.
Qed.

Lemma delete_keeps_nonneg (l : list Z) (i : nat) :
  Forall (fun c => 0 <= c) l -> Forall (fun c => 0 <= c) (delete i l).
Proof.
  intros H. rewrite delete_take_drop. apply Forall_app. split.
  - now apply Forall_take.
  - now apply Forall_drop.
Qed.

Lemma deliveries_to_all message (l : list Z) :
  Forall (fun c => 0 <= c) l ->
  deliveries message (-1) l = map (fun c => EvSend c message) l.
Proof. intros H. unfold deliveries. now rewrite filter_not_sentinel. Qed.

(** ** The scan of the clients *)

Lemma reads_of_app t1 t2 : reads_of (t1 ++ t2) = reads_of t1 ++ reads_of t2.
Proof. unfold reads_of. apply omap_app. Qed.

Lemma reads_of_deliveries message excl l :
  reads_of (deliveries message excl l) = [].
Proof.
  unfold deliveries.
  induction (filter (fun client => client ≠ excl) l); simpl; auto.
Qed.

Lemma reads_of_departure_events i c s : reads_of (departure_events i c s) = [].
Proof.
  unfold departure_events. rewrite !reads_of_app.
  destruct (client_names s !! c); simpl;
    destruct (decide (leaving_name c s = EmptyString)); simpl;
    rewrite ?reads_of_deliveries; reflexivity.
Qed.

Lemma reads_of_data_events c message s : reads_of (data_events c message s) = [].
Proof.
  unfold data_events. destruct (client_names s !! c); simpl;
    now rewrite reads_of_deliveries.
Qed.

Section Scan.

Variable os : OS.

Lemma sys_read_run fd s :
  sys_read os fd s
  = Ret (os_read os (trace s) fd)
        (add_events s [EvRead fd (os_read os (trace s) fd)]).
Proof. reflexivity. Qed.

Lemma visit_run read_fds (i : nat) c s :
  Z.of_nat i <= INT_MAX -> clients s !! i = Some c ->
  visit os read_fds (Z.of_nat i) s
  = if decide (c ∈ read_fds) then
      match session (Z.of_nat i) c (os_read os (trace s) c)
                    (add_events s [EvRead c (os_read os (trace s) c)]) with
      | Ret i' s' => Ret (c, i') s'
      | Undefined => Undefined
      | OutOfFuel => OutOfFuel
      end
    else Ret (c, Z.of_nat i) s.
Proof.
  intros Hi Hc. unfold visit.
  rewrite (bind_Ret _ _ _ _ _ (clients_at_run i c s Hi Hc)).
  destruct (decide (c ∈ read_fds)); [|reflexivity].
  rewrite (bind_Ret _ _ _ _ _ (sys_read_run c s)).
  unfold bind. now destruct (session _ _ _ _).
Qed.

Lemma int_incr_run i s : i < INT_MAX -> int_incr i s = Ret (i + 1) s.
Proof.
  intros H. unfold int_incr.
  replace (i <? INT_MAX) with true; [reflexivity|].
  symmetry. now apply Z.ltb_lt.
Qed.

Lemma scan_loop_unfold fuel read_fds i s :
  scan_loop os fuel read_fds i s
  = if to_size_t i <? Z.of_nat (length (clients s)) then
      match fuel with
      | O => OutOfFuel
      | S fuel' =>
          match visit os read_fds i s with
          | Ret v s1 =>
              match int_incr (snd v) s1 with
              | Ret i' s2 =>
                  match scan_loop os fuel' read_fds i' s2 with
                  | Ret visited s3 => Ret (fst v :: visited) s3
                  | Undefined => Undefined
                  | OutOfFuel => OutOfFuel
                  end
              | Undefined => Undefined
              | OutOfFuel => OutOfFuel
              end
          | Undefined => Undefined
          | OutOfFuel => OutOfFuel
          end
      end
    else Ret [] s.
Proof.
  destruct fuel; simpl; unfold bind, clients_size, get_clients, ret, bind;
    destruct (to_size_t i <? Z.of_nat (length (clients s))); reflexivity.
Qed.

(** From index [length pre] on, the loop takes the elements of [rest] one
    after the other, whatever was removed on the way, and reads those that
    are ready. *)
Lemma scan_loop_visits read_fds :
  (forall h fd, decodable (os_read os h fd)) ->
  forall rest pre fuel s,
    clients s = pre ++ rest ->
    (length rest <= fuel)%nat ->
    Z.of_nat (length (pre ++ rest)) <= INT_MAX ->
    exists s1 evs,
      scan_loop os fuel read_fds (Z.of_nat (length pre)) s = Ret rest s1
      /\ trace s1 = trace s ++ evs
      /\ reads_of evs = filter (fun c => c ∈ read_fds) rest.
Proof.
  intros Hdec. induction rest as [|c rest IH]; intros pre fuel s Hcl Hfuel Hmax.
  - rewrite app_nil_r in Hcl, Hmax. rewrite scan_loop_unfold.
    rewrite to_size_t_small by exact Hmax. rewrite Hcl.
    rewrite Z.ltb_irrefl. exists s, []. now rewrite app_nil_r.
  - rewrite length_app in Hmax. simpl in Hmax, Hfuel.
    destruct fuel as [|fuel]; [lia|].
    assert (Hc : clients s !! length pre = Some c).
    { rewrite Hcl. now rewrite list_lookup_middle. }
    rewrite scan_loop_unfold. rewrite to_size_t_small by lia.
    replace (Z.of_nat (length pre) <? Z.of_nat (length (clients s))) with true;
      cycle 1.
    { symmetry. apply Z.ltb_lt. rewrite Hcl, length_app. simpl. lia. }
    rewrite (visit_run read_fds (length pre) c s) by (lia || assumption).
    rewrite filter_cons.
    destruct (decide (c ∈ read_fds)) as [Hready|Hidle].
    + rewrite session_run.
      destruct (valread (os_read os (trace s) c) <=? 0) eqn:Hv.
      * rewrite on_disconnect_run. cbn [clients client_names trace add_events].
        rewrite (index_in_range _ _ _ Hc). rewrite Nat2Z.id.
        cbn [snd fst]. rewrite int_incr_run by lia.
        replace (Z.of_nat (length pre) - 1 + 1) with (Z.of_nat (length pre))
          by lia.
        match goal with |- context [scan_loop os fuel read_fds _ ?s2] =>
          destruct (IH pre fuel s2) as (s1 & evs & Hrun & Htr & Hrd) end.
        { cbn [clients]. rewrite Hcl. rewrite delete_middle. reflexivity. }
        { lia. }
        { rewrite length_app. lia. }
        rewrite Hrun. eexists. eexists. split; [reflexivity|]. split.
        { rewrite Htr. cbn [trace]. rewrite <- !app_assoc. reflexivity. }
        rewrite !reads_of_app, reads_of_departure_events, Hrd. reflexivity.
      * destruct (Hdec (trace s) c) as [message Hm]. rewrite Hm.
        cbn [snd fst]. rewrite int_incr_run by lia.
        match goal with |- context [scan_loop os fuel read_fds _ ?s2] =>
          destruct (IH (pre ++ [c]) fuel s2) as (s1 & evs & Hrun & Htr & Hrd) end.
        { cbn [clients add_events]. rewrite Hcl, <- app_assoc. reflexivity. }
        { lia. }
        { rewrite !length_app. simpl. lia. }
        replace (Z.of_nat (length (pre ++ [c])))
          with (Z.of_nat (length pre) + 1) in Hrun
          by (rewrite length_app; simpl; lia).
        rewrite Hrun. eexists. eexists. split; [reflexivity|]. split.
        { rewrite Htr. cbn [trace add_events]. rewrite <- !app_assoc.
          reflexivity. }
        rewrite !reads_of_app, reads_of_data_events, Hrd. reflexivity.
    + cbn [snd fst]. rewrite int_incr_run by lia.
      destruct (IH (pre ++ [c]) fuel s) as (s1 & evs & Hrun & Htr & Hrd).
      { rewrite Hcl, <- app_assoc. reflexivity. }
      { lia. }
      { rewrite !length_app. simpl. lia. }
      replace (Z.of_nat (length (pre ++ [c])))
        with (Z.of_nat (length pre) + 1) in Hrun
        by (rewrite length_app; simpl; lia).
      rewrite Hrun. exists s1, evs. auto.
Qed.

End Scan.

(** ** No tracked descriptor is negative *)

Lemma keeps_bind {A B} P (m : M A) (k : A -> M B) :
  keeps P m -> (forall a, keeps P (k a)) -> keeps P (bind m k).
Proof.
  intros Hm Hk s Hs. unfold bind. specialize (Hm s Hs).
  destruct (m s) as [a s'| |]; [|exact I|exact I]. now apply Hk.
Qed.

Lemma keeps_ret {A} P (a : A) : keeps P (ret a).
Proof. intros s Hs. exact Hs. Qed.

Lemma keeps_undefined {A} P : keeps P (@undefined A).
Proof. intros s Hs. exact I. Qed.

Lemma keeps_emit e : keeps nonneg (emit e).
Proof. intros s Hs. exact Hs. Qed.

Lemma keeps_session i c r : keeps nonneg (session i c r).
Proof.
  intros s Hs. rewrite session_run. destruct (valread r <=? 0).
  - rewrite on_disconnect_run.
    destruct ((0 <=? i) && (i <? Z.of_nat (length (clients s)))); [|exact I].
    now apply delete_keeps_nonneg.
  - destruct (c_string (buffer_after r)); [exact Hs|exact I].
Qed.

Create HintDb keeps_db.
#[local] Hint Resolve keeps_ret keeps_undefined keeps_emit keeps_session
  : keeps_db.

Ltac keeps_step :=
  first [ solve [auto with keeps_db]
        | apply keeps_bind; [|intros]
        | match goal with
          | |- keeps _ (if ?b then _ else _) => destruct b
          | |- keeps _ (match ?o with _ => _ end) => destruct o
          end
        | intros ? ?; assumption ].

Section Invariant.

Variable os : OS.
Variable server_fd : Z.

Lemma keeps_visit read_fds i : keeps nonneg (visit os read_fds i).
Proof.
  unfold visit, clients_at, sys_read, get_clients, get_trace.
  repeat keeps_step.
Qed.

Lemma keeps_scan_loop fuel read_fds :
  forall i, keeps nonneg (scan_loop os fuel read_fds i).
Proof.
  induction fuel as [|fuel IH]; intros i; simpl;
    unfold clients_size, get_clients, int_incr, out_of_fuel.
  - repeat keeps_step. intros s Hs. exact I.
  - pose proof (keeps_visit read_fds) as Hv. repeat keeps_step.
Qed.

Lemma keeps_accept_phase read_fds :
  keeps nonneg (accept_phase os server_fd read_fds).
Proof.
  intros s Hs. unfold accept_phase.
  destruct (decide (server_fd ∈ read_fds)); [|exact Hs].
  unfold sys_accept, get_trace, cerr, cout, send, clients_push_back,
    get_clients, set_clients, emit, bind, ret. cbn.
  destruct (os_accept os (trace s) <? 0) eqn:Hneg; cbn; [exact Hs|].
  unfold nonneg in *. cbn [clients].
  apply Forall_app. split; [assumption|].
  apply Forall_singleton. apply Z.ltb_ge in Hneg. exact Hneg.
Qed.

Lemma keeps_iteration : keeps nonneg (iteration os server_fd).
Proof.
  pose proof keeps_accept_phase as Ha.
  pose proof keeps_scan_loop as Hl.
  unfold iteration, sys_select, scan, get_clients, get_trace, cerr.
  repeat keeps_step.
Qed.

Lemma keeps_run n : keeps nonneg (run os server_fd n).
Proof.
  pose proof keeps_iteration as Hi.
  induction n as [|n IH]; cbn [run]; repeat keeps_step.
Qed.

(** Whatever the operating system answers, the descriptors tracked after
    any number of passes are not negative: -1 is none of them. *)
Lemma reachable_nonneg n s :
  run os server_fd n initial = Ret tt s -> nonneg s.
Proof.
  intros H. pose proof (keeps_run n initial) as K. rewrite H in K.
  apply K. constructor.
Qed.

End Invariant.

(** ** No descriptor is tracked twice *)

Lemma replay_app t1 t2 l : replay (t1 ++ t2) l = replay t2 (replay t1 l).
Proof.
  revert l. induction t1 as [|e t1 IH]; intros l; [reflexivity|].
  destruct e; simpl; apply IH.
Qed.

Lemma replay_deliveries message excl l0 l :
  replay (deliveries message excl l0) l = l.
Proof.
  unfold deliveries.
  induction (filter (fun client => client ≠ excl) l0); simpl; auto.
Qed.

Lemma replay_departure_events i c s l :
  replay (departure_events i c s) l = delete i l.
Proof.
  unfold departure_events. rewrite !replay_app.
  destruct (client_names s !! c); simpl;
    destruct (decide (leaving_name c s = EmptyString)); simpl;
    rewrite ?replay_deliveries; reflexivity.
Qed.

Lemma replay_data_events c message s l :
  replay (data_events c message s) l = l.
Proof.
  unfold data_events. destruct (client_names s !! c); simpl;
    now rewrite replay_deliveries.
Qed.

Lemma NoDup_delete (l : list Z) (i : nat) : NoDup l -> NoDup (delete i l).
Proof.
  intros H. eapply sublist_NoDup; [exact H|apply sublist_delete].
Qed.

Lemma keeps_emit_quiet e :
  is_clients_write e = false -> keeps tracked_once (emit e).
Proof.
  intros He s [Hr Hd]. split; [|exact Hd]. cbn [emit clients trace].
  rewrite replay_app, <- Hr. destruct e; try discriminate; reflexivity.
Qed.

Lemma keeps_session_once i c r : keeps tracked_once (session i c r).
Proof.
  intros s [Hr Hd]. rewrite session_run. destruct (valread r <=? 0).
  - rewrite on_disconnect_run.
    destruct ((0 <=? i) && (i <? Z.of_nat (length (clients s)))); [|exact I].
    split; cbn [clients trace].
    + now rewrite replay_app, replay_departure_events, <- Hr.
    + now apply NoDup_delete.
  - destruct (c_string (buffer_after r)); [|exact I].
    split; cbn [clients trace]; [|exact Hd].
    now rewrite replay_app, replay_data_events, <- Hr.
Qed.

#[local] Hint Resolve keeps_emit_quiet keeps_session_once : keeps_db.

Section Tracking.

Variable os : OS.
Variable server_fd : Z.
Hypothesis os_fresh : fresh_accepts os.

Lemma keeps_visit_once read_fds i : keeps tracked_once (visit os read_fds i).
Proof.
  unfold visit, clients_at, sys_read, get_clients, get_trace.
  repeat keeps_step.
Qed.

Lemma keeps_scan_loop_once fuel read_fds :
  forall i, keeps tracked_once (scan_loop os fuel read_fds i).
Proof.
  induction fuel as [|fuel IH]; intros i; simpl;
    unfold clients_size, get_clients, int_incr, out_of_fuel.
  - repeat keeps_step. intros s Hs. exact I.
  - pose proof (keeps_visit_once read_fds) as Hv. repeat keeps_step.
Qed.

Lemma keeps_accept_phase_once read_fds :
  keeps tracked_once (accept_phase os server_fd read_fds).
Proof.
  intros s [Hr Hd]. unfold accept_phase.
  destruct (decide (server_fd ∈ read_fds)); [|now split].
  unfold sys_accept, get_trace, cerr, cout, send, clients_push_back,
    get_clients, set_clients, emit, bind, ret. cbn.
  destruct (os_accept os (trace s) <? 0) eqn:Hneg; cbn.
  - split; cbn [clients trace]; [|exact Hd].
    now rewrite !replay_app, <- Hr.
  - split; cbn [clients trace].
    + rewrite !replay_app, <- Hr. reflexivity.
    + apply NoDup_app. split; [exact Hd|]. split; [|apply NoDup_singleton].
      intros x Hx Hx'. apply list_elem_of_singleton in Hx'. subst x.
      apply (os_fresh (trace s)). now rewrite <- Hr.
Qed.

Lemma keeps_iteration_once : keeps tracked_once (iteration os server_fd).
Proof.
  pose proof keeps_accept_phase_once as Ha.
  pose proof keeps_scan_loop_once as Hl.
  unfold iteration, sys_select, scan, get_clients, get_trace, cerr.
  repeat keeps_step.
Qed.

Lemma keeps_run_once n : keeps tracked_once (run os server_fd n).
Proof.
  pose proof keeps_iteration_once as Hi.
  induction n as [|n IH]; cbn [run]; repeat keeps_step.
Qed.

(** With such an operating system the ConnectionSet never holds a
    descriptor twice. *)
Lemma reachable_distinct n s :
  run os server_fd n initial = Ret tt s -> distinct s.
Proof.
  intros H. pose proof (keeps_run_once n initial) as K. rewrite H in K.
  apply K. split; [reflexivity|constructor].
Qed.

End Tracking.

Lemma fold_max_bounds (l : list Z) x :
  x ∈ l -> x <= fold_right Z.max 3 l.
Proof.
  induction l as [|y l IH]; intros Hin; [inversion Hin|].
  simpl. apply elem_of_cons in Hin as [->|Hin]; [lia|].
  specialize (IH Hin). lia.
Qed.

Lemma next_fd_os_fresh : fresh_accepts next_fd_os.
Proof.
  intros history Hin. apply fold_max_bounds in Hin.
  simpl in Hin. lia.
Qed.

(** ** The scenario of two clients *)

(** After the six passes of the scenario, "alice" on 4 has been sent the
    prompt, the join notice of "bob" and its departure notice; 5 has been
    sent the prompt, the line of "alice" and, before it was closed, its
    own departure notice. *)
Example two_clients_scenario :
  exists s,
    run two_clients_os 3 6 initial = Ret tt s
    /\ clients s = [4]
    /\ client_names s !! 4 = Some "alice"
    /\ client_names s !! 5 = None
    /\ sent_to 4 (trace s)
       = ["Enter your username: "; "bob has joined the chat!";
          "bob has left the chat"]
    /\ sent_to 5 (trace s)
       = ["Enter your username: "; "alice: hi"; "bob has left the chat"].
Proof.
  eexists. split; [vm_compute; reflexivity|].
  repeat split.
Qed.

(** * The claims *)

(** ** Regular chat lines *)

(** C1, as amended: when a chunk arrives from a connection [c] that has
    a UsernameMap entry [u], with [message] the bytes of the chunk that
    precede its first NUL byte (the whole chunk when it has no NUL and is
    shorter than the buffer), the server makes exactly one call of
    broadcast, with the line "u: message" and [c] excluded; every other
    connection of the ConnectionSet is sent that line exactly once and [c]
    is sent nothing. *)
Theorem chat_line_reaches_every_other_client i c u chunk s :
  client_names s !! c = Some u ->
  chunk ≠ [] ->
  (length chunk < BUFFER_SIZE)%nat ∨ zero ∈ take BUFFER_SIZE chunk ->
  let message := until_nul (take BUFFER_SIZE chunk) in
  let line := u +:+ ": " +:+ message in
  let evs := EvCout [LStr u; LStr ": "; LStr message]
             :: EvBroadcast line c :: deliveries line c (clients s) in
  session i c (ReadBytes chunk) s = Ret i (add_events s evs)
  /\ List.filter is_broadcast evs = [EvBroadcast line c]
  /\ sends evs = map (fun d => (d, line)) (filter (fun d => d ≠ c) (clients s))
  /\ (forall d, d ≠ c ->
        sent_to d evs = replicate (count_occ Z.eq_dec (clients s) d) line)
  /\ (distinct s -> forall d, d ∈ clients s -> d ≠ c -> sent_to d evs = [line])
  /\ sent_to c evs = []
  /\ ((length chunk < BUFFER_SIZE)%nat -> zero ∉ chunk ->
      message = string_of_list_ascii chunk).
Proof.
  intros Hn Hne Hok message line evs. repeat split.
  - rewrite session_run, (valread_pos_ltb _ (valread_chunk _ Hne)).
    rewrite (message_of_chunk _ Hok).
    unfold data_names, data_events, add_events. now rewrite Hn.
  - unfold evs. simpl. now rewrite filter_broadcast_deliveries.
  - unfold evs.
    transitivity (sends (deliveries line c (clients s)));
      [reflexivity|].
    apply sends_deliveries.
  - intros d Hd.
    transitivity (sent_to d (deliveries line c (clients s)));
      [reflexivity|].
    now apply sent_to_deliveries_other.
  - intros Hdis d Hin Hd.
    transitivity (sent_to d (deliveries line c (clients s)));
      [reflexivity|].
    now apply sent_to_deliveries_once.
  - transitivity (sent_to c (deliveries line c (clients s)));
      [reflexivity|].
    apply sent_to_deliveries_self.
  - intros Hlen Hz. unfold message. rewrite take_ge by lia.
    now apply until_nul_verbatim.
Qed.

(** C1, as stated, fails: a chat chunk with a NUL byte inside is not
    broadcast whole, the line stops at the NUL. *)
Lemma chat_chunk_with_nul_is_cut :
  let chunk := ["h"%char; zero; "i"%char] in
  exists s1,
    session 0 4 (ReadBytes chunk) alice_and_bob = Ret 0 s1
    /\ sent_to 5 (trace s1) = ["alice: h"]
    /\ sent_to 5 (trace s1) ≠ ["alice: " +:+ string_of_list_ascii chunk].
Proof.
  eexists. split; [|split].
  - rewrite session_run. vm_compute. reflexivity.
  - reflexivity.
  - vm_compute. discriminate.
Qed.

(** ** The first chunk of a connection *)

(** C3, as amended: for a connection [c] without UsernameMap entry, the
    bytes of the first chunk that precede its first NUL byte (the whole
    chunk when it has no NUL and is shorter than the buffer) are recorded,
    without trimming or validation, as the username of [c]; the join
    notice is broadcast once with [c] excluded, so that every other
    connection is sent it exactly once and [c] is sent nothing. *)
Theorem first_chunk_becomes_username i c chunk s :
  client_names s !! c = None ->
  chunk ≠ [] ->
  (length chunk < BUFFER_SIZE)%nat ∨ zero ∈ take BUFFER_SIZE chunk ->
  let name := until_nul (take BUFFER_SIZE chunk) in
  let notice := name +:+ " has joined the chat!" in
  let evs := EvNamesInsert c name
             :: EvCout [LStr name; LStr " has joined the chat!"]
             :: EvBroadcast notice c :: deliveries notice c (clients s) in
  session i c (ReadBytes chunk) s
  = Ret i (mkServer (clients s) (<[c := name]> (client_names s))
                    (trace s ++ evs))
  /\ List.filter is_broadcast evs = [EvBroadcast notice c]
  /\ (forall d, d ≠ c ->
        sent_to d evs = replicate (count_occ Z.eq_dec (clients s) d) notice)
  /\ (distinct s ->
      forall d, d ∈ clients s -> d ≠ c -> sent_to d evs = [notice])
  /\ sent_to c evs = []
  /\ ((length chunk < BUFFER_SIZE)%nat -> zero ∉ chunk ->
      name = string_of_list_ascii chunk).
Proof.
  intros Hn Hne Hok name notice evs. repeat split.
  - rewrite session_run, (valread_pos_ltb _ (valread_chunk _ Hne)).
    rewrite (message_of_chunk _ Hok).
    unfold data_names, data_events. now rewrite Hn.
  - unfold evs. simpl. now rewrite filter_broadcast_deliveries.
  - intros d Hd.
    transitivity (sent_to d (deliveries notice c (clients s)));
      [reflexivity|].
    now apply sent_to_deliveries_other.
  - intros Hdis d Hin Hd.
    transitivity (sent_to d (deliveries notice c (clients s))); [reflexivity|].
    now apply sent_to_deliveries_once.
  - transitivity (sent_to c (deliveries notice c (clients s))); [reflexivity|].
    apply sent_to_deliveries_self.
  - intros Hlen Hz. unfold name. rewrite take_ge by lia.
    now apply until_nul_verbatim.
Qed.

(** C3, as stated, fails: a chunk with a NUL byte inside is not recorded
    verbatim, the username stops at the NUL. *)
Lemma first_chunk_with_nul_is_cut :
  let s := mkServer [4; 5] ∅ [] in
  let chunk := ["a"%char; zero; "b"%char] in
  exists s1,
    session 1 5 (ReadBytes chunk) s = Ret 1 s1
    /\ client_names s1 !! 5 = Some "a"
    /\ client_names s1 !! 5 ≠ Some (string_of_list_ascii chunk).
Proof.
  eexists. split; [|split].
  - rewrite session_run. vm_compute. reflexivity.
  - reflexivity.
  - vm_compute. discriminate.
Qed.

(** ** Departures *)

(** C4, as amended: when a read from a connection [c] whose recorded
    username [u] is not empty returns zero or less, the server, in this
    order, broadcasts exactly one departure notice with the sentinel -1
    (sent to every connection of the set when no descriptor is negative),
    closes [c], removes it from the ConnectionSet and erases its
    UsernameMap entry; afterwards [c] has no entry and the entries of the
    other connections are unchanged. *)
Theorem departure_of_named_connection (i : nat) c u r s :
  clients s !! i = Some c ->
  client_names s !! c = Some u ->
  u ≠ EmptyString ->
  valread r <= 0 ->
  let notice := u +:+ " has left the chat" in
  let evs := [EvCout [LStr u; LStr " disconnected"]; EvBroadcast notice (-1)]
             ++ deliveries notice (-1) (clients s)
             ++ [EvClose c; EvClientsErase i; EvNamesErase c] in
  exists s1,
    session (Z.of_nat i) c r s = Ret (Z.of_nat i - 1) s1
    /\ trace s1 = trace s ++ evs
    /\ clients s1 = delete i (clients s)
    /\ client_names s1 = delete c (client_names s)
    /\ List.filter is_broadcast evs = [EvBroadcast notice (-1)]
    /\ (nonneg s ->
        deliveries notice (-1) (clients s)
        = map (fun d => EvSend d notice) (clients s))
    /\ client_names s1 !! c = None
    /\ (forall d, d ≠ c -> client_names s1 !! d = client_names s !! d)
    /\ (distinct s -> c ∉ clients s1).
Proof.
  intros Hi Hn Hu Hv notice evs. eexists. split.
  { apply session_departure; eassumption. }
  cbn [trace clients client_names]. repeat split.
  - unfold departure_events, leaving_name. rewrite Hn. simpl.
    destruct (decide (u = EmptyString)); [contradiction|reflexivity].
  - unfold evs. simpl. rewrite List.filter_app.
    now rewrite filter_broadcast_deliveries.
  - apply deliveries_to_all.
  - apply lookup_delete_eq.
  - intros d Hd. now apply lookup_delete_ne.
  - intros Hdis. now apply removed_not_left.
Qed.

(** C4, as stated, fails in its last part: usernames are not unique, so
    after the departure of one "bob" the username is still associated with
    the other tracked connection that chose it. *)
Lemma departed_username_may_stay_tracked :
  let s := mkServer [4; 5] (<[4 := "bob"]> (<[5 := "bob"]> ∅)) [] in
  exists s1,
    session 1 5 ReadEof s = Ret 0 s1
    /\ client_names s !! 5 = Some "bob"
    /\ 4 ∈ clients s1
    /\ client_names s1 !! 4 = Some "bob".
Proof.
  eexists. split; [|split; [|split]].
  - rewrite session_run. vm_compute. reflexivity.
  - reflexivity.
  - cbn. left.
  - reflexivity.
Qed.

(** C5: when a read from a connection [c] without UsernameMap entry
    returns zero or less, no broadcast is made and nothing is sent, [c] is
    removed from the ConnectionSet, and afterwards the UsernameMap is what
    it was before, without entry for [c]: the next chunk on that descriptor
    is taken as a first message. *)
Theorem leaving_before_username_is_silent (i : nat) c r s :
  clients s !! i = Some c ->
  client_names s !! c = None ->
  valread r <= 0 ->
  let evs := [EvNamesInsert c EmptyString;
              EvCout [LStr "Client (socket "; LInt c; LStr ")"];
              EvClose c; EvClientsErase i; EvNamesErase c] in
  exists s1,
    session (Z.of_nat i) c r s = Ret (Z.of_nat i - 1) s1
    /\ trace s1 = trace s ++ evs
    /\ List.filter is_broadcast evs = []
    /\ sends evs = []
    /\ clients s1 = delete i (clients s)
    /\ (distinct s -> c ∉ clients s1)
    /\ client_names s1 = client_names s
    /\ client_names s1 !! c = None
    /\ names_absent c s1 = Ret true s1.
Proof.
  intros Hi Hn Hv evs. eexists. split.
  { apply session_departure; eassumption. }
  cbn [trace clients client_names].
  assert (Hdel : delete c (client_names s) = client_names s)
    by now apply delete_id.
  repeat split.
  - unfold departure_events, leaving_name. now rewrite Hn.
  - intros Hdis. now apply removed_not_left.
  - exact Hdel.
  - now rewrite Hdel.
  - unfold names_absent, bind, get_names, ret. cbn [client_names].
    now rewrite Hdel, Hn.
Qed.

(** C10: when the recorded username of [c] is the empty string, a read
    that returns zero or less is handled as for a connection without
    username: the bare descriptor is logged, no broadcast is made and
    nothing is sent, although [c] has a UsernameMap entry; and an empty
    username is what a first chunk that starts with a NUL byte records. *)
Theorem empty_username_leaves_silently (i : nat) c r s :
  clients s !! i = Some c ->
  client_names s !! c = Some EmptyString ->
  valread r <= 0 ->
  let evs := [EvCout [LStr "Client (socket "; LInt c; LStr ")"];
              EvClose c; EvClientsErase i; EvNamesErase c] in
  session (Z.of_nat i) c r s
  = Ret (Z.of_nat i - 1)
        (mkServer (delete i (clients s)) (delete c (client_names s))
                  (trace s ++ evs))
  /\ List.filter is_broadcast evs = []
  /\ sends evs = []
  /\ (forall j rest s0,
        client_names s0 !! c = None ->
        exists s1,
          session j c (ReadBytes (zero :: rest)) s0 = Ret j s1
          /\ client_names s1 !! c = Some EmptyString).
Proof.
  intros Hi Hn Hv evs. repeat split.
  - rewrite (session_departure i c r s Hi Hv).
    unfold departure_events, leaving_name. now rewrite Hn.
  - intros j rest s0 Hn0. eexists. split.
    + rewrite session_run.
      rewrite valread_pos_ltb by (apply valread_chunk; discriminate).
      rewrite message_of_chunk by (right; left).
      reflexivity.
    + cbn [client_names]. unfold data_names. rewrite Hn0.
      simpl. apply lookup_insert_eq.
Qed.

(** ** Side effects of one read *)

(** C7, as amended: one read event makes at most one call of broadcast
    and at most one change of the ConnectionSet, which is the removal of
    the connection read from; it changes the UsernameMap at most once,
    except when the connection leaves without entry: there the look-up of
    line 155 inserts an empty entry and line 170 erases it, two changes
    after which the map is what it was. *)
Theorem side_effects_of_one_read (i : nat) c r s :
  clients s !! i = Some c ->
  valread r <= 0 ∨ decodable r ->
  exists i' s1 evs,
    session (Z.of_nat i) c r s = Ret i' s1
    /\ trace s1 = trace s ++ evs
    /\ (length (List.filter is_names_write evs) <= 2)%nat
    /\ (valread r <= 0 -> client_names s !! c = None ->
        List.filter is_names_write evs
        = [EvNamesInsert c EmptyString; EvNamesErase c]
        /\ client_names s1 = client_names s)
    /\ (~ (valread r <= 0 /\ client_names s !! c = None) ->
        (length (List.filter is_names_write evs) <= 1)%nat)
    /\ (length (List.filter is_clients_write evs) <= 1)%nat
    /\ (forall e, e ∈ List.filter is_clients_write evs -> e = EvClientsErase i)
    /\ (length (List.filter is_broadcast evs) <= 1)%nat.
Proof.
  intros Hi Hr.
  destruct (Z_le_gt_dec (valread r) 0) as [Hv|Hv].
  - exists (Z.of_nat i - 1). eexists. exists (departure_events i c s).
    split; [now apply session_departure|].
    cbn [trace client_names]. split; [reflexivity|].
    unfold departure_events, leaving_name.
    destruct (client_names s !! c) as [u|] eqn:Hn; simpl.
    + destruct (decide (u = EmptyString)) as [Hu|Hu]; simpl;
        rewrite ?List.filter_app, ?filter_names_deliveries,
          ?filter_clients_deliveries, ?filter_broadcast_deliveries; simpl.
      all: repeat split; try lia; try discriminate.
      all: intros e He; apply list_elem_of_singleton in He; exact He.
    + repeat split; try lia.
      * now apply delete_id.
      * intros H. exfalso. apply H. now split.
      * intros e He. apply list_elem_of_singleton in He. exact He.
  - destruct Hr as [Hr|[message Hm]]; [lia|].
    exists (Z.of_nat i). eexists. exists (data_events c message s).
    split.
    { rewrite session_run, valread_pos_ltb by lia. rewrite Hm. reflexivity. }
    cbn [trace]. split; [reflexivity|].
    unfold data_events.
    destruct (client_names s !! c) as [u|] eqn:Hn; simpl;
      rewrite ?filter_names_deliveries, ?filter_clients_deliveries,
        ?filter_broadcast_deliveries; simpl.
    all: repeat split; try lia.
    all: intros e He; inversion He.
Qed.

(** C7, as stated, fails: a connection that leaves without UsernameMap
    entry makes the server write the map twice, an insertion by the
    look-up [client_names[client]] and the erasure. *)
Lemma unnamed_departure_writes_names_twice :
  let s := mkServer [4] ∅ [] in
  exists s1,
    session 0 4 ReadEof s = Ret (-1) s1
    /\ List.filter is_names_write (trace s1)
       = [EvNamesInsert 4 EmptyString; EvNamesErase 4].
Proof.
  eexists. split.
  - rewrite session_run. vm_compute. reflexivity.
  - reflexivity.
Qed.

(** ** Usernames are kept *)

(** C9: a read event on any connection [c] leaves the recorded username
    of every connection [d] as it is, unless the event is the departure
    of [d] itself, which erases the entry together with the removal of the
    connection (closed, and erased from the ConnectionSet at the index
    read). *)
Theorem username_is_never_overwritten i c r s i' s1 d u :
  client_names s !! d = Some u ->
  session i c r s = Ret i' s1 ->
  client_names s1 !! d = Some u
  ∨ (client_names s1 !! d = None
     /\ d = c /\ valread r <= 0
     /\ clients s1 = delete (Z.to_nat i) (clients s)
     /\ (exists evs, trace s1 = trace s ++ evs /\ EvClose d ∈ evs)).
Proof.
  intros Hd Hs. rewrite session_run in Hs.
  destruct (valread r <=? 0) eqn:Hv.
  - rewrite on_disconnect_run in Hs.
    destruct ((0 <=? i) && (i <? Z.of_nat (length (clients s)))); [|discriminate].
    inversion Hs; subst; clear Hs. cbn [client_names clients trace].
    destruct (decide (d = c)) as [->|Hne].
    + right. repeat split.
      * apply lookup_delete_eq.
      * now apply Z.leb_le.
      * eexists. split; [reflexivity|].
        unfold departure_events. rewrite !elem_of_app. right. right. left.
    + left. now rewrite lookup_delete_ne.
  - destruct (c_string (buffer_after r)) as [message|]; [|discriminate].
    inversion Hs; subst; clear Hs. cbn [client_names]. left.
    unfold data_names. destruct (client_names s !! c) eqn:Hc; [exact Hd|].
    rewrite lookup_insert_ne; [exact Hd|]. intros ->. congruence.
Qed.

(** ** broadcast *)

(** C2: [broadcast message excl] sends [message] once to each element of
    the ConnectionSet that differs from [excl], in the order of the set,
    and never to [excl]; with the sentinel -1 that is every element of the
    set when no tracked descriptor is negative, and none is on a server
    reached from the start of the loop. *)
Theorem broadcast_skips_only_the_excluded message excl s :
  let evs := deliveries message excl (clients s) in
  broadcast message excl s
  = Ret tt (add_events s (EvBroadcast message excl :: evs))
  /\ sends evs
     = map (fun d => (d, message)) (filter (fun d => d ≠ excl) (clients s))
  /\ (forall d, d ≠ excl ->
        sent_to d evs = replicate (count_occ Z.eq_dec (clients s) d) message)
  /\ (distinct s ->
      forall d, d ∈ clients s -> d ≠ excl -> sent_to d evs = [message])
  /\ sent_to excl evs = []
  /\ (excl = -1 -> nonneg s ->
      evs = map (fun d => EvSend d message) (clients s))
  /\ (forall os server_fd n,
        run os server_fd n initial = Ret tt s -> nonneg s).
Proof.
  intros evs. repeat split.
  - apply broadcast_run.
  - apply sends_deliveries.
  - intros d Hd. now apply sent_to_deliveries_other.
  - intros Hdis d Hin Hd. now apply sent_to_deliveries_once.
  - apply sent_to_deliveries_self.
  - intros -> Hs. now apply deliveries_to_all.
  - intros os server_fd n Hrun.
    exact (reachable_nonneg os server_fd n s Hrun).
Qed.

(** ** The scan *)

(** C6: one scan of the ConnectionSet, with the erasure at the current
    index and the decrement of the index at each departure, takes every
    element of the set as it was at the start exactly once and in order,
    wherever and however often a connection is removed on the way; each
    ready connection is read exactly once. *)
Theorem scan_visits_each_connection_once os read_fds s :
  Z.of_nat (length (clients s)) <= INT_MAX ->
  (forall h fd, decodable (os_read os h fd)) ->
  exists s1 evs,
    scan os read_fds s = Ret (clients s) s1
    /\ trace s1 = trace s ++ evs
    /\ reads_of evs = filter (fun c => c ∈ read_fds) (clients s).
Proof.
  intros Hmax Hdec. unfold scan, bind, get_clients.
  apply (scan_loop_visits os read_fds Hdec (clients s) [] (length (clients s)) s).
  - reflexivity.
  - lia.
  - exact Hmax.
Qed.

(** ** A failed accept *)

(** C8, as amended: when accept fails, the failure is logged and the pass
    ends there, the [continue] of line 126 leading to the next pass: no
    connection is read in this pass, also when select reported it ready,
    nothing is sent, and the ConnectionSet and the UsernameMap are
    unchanged. *)
Theorem failed_accept_ends_the_pass os server_fd s :
  let nfds := max_fd_of server_fd (clients s) + 1 in
  let sel := os_select os (trace s) nfds
               ({[server_fd]} ∪ list_to_set (clients s)) in
  let new_client := os_accept os (trace s ++ [EvSelect nfds]) in
  let evs := [EvSelect nfds; EvAccept new_client;
              EvCerr [LStr "Accept failed!"]] in
  0 <= fst sel ->
  server_fd ∈ snd sel ->
  new_client < 0 ->
  iteration os server_fd s = Ret [] (add_events s evs)
  /\ reads_of evs = []
  /\ sends evs = []
  /\ (forall n,
        run os server_fd (S n) s = run os server_fd n (add_events s evs)).
Proof.
  intros nfds sel new_client evs Hsel Hready Hfail.
  assert (Hit : iteration os server_fd s = Ret [] (add_events s evs)).
  { unfold iteration, bind at 1, get_clients.
    unfold bind at 1, sys_select, bind at 1, get_trace, bind at 1.
    rewrite emit_run. unfold ret at 1. cbn [fst snd].
    fold nfds. fold sel.
    replace (fst sel <? 0) with false by (symmetry; apply Z.ltb_ge; lia).
    unfold bind at 1, accept_phase.
    destruct (decide (server_fd ∈ ({[server_fd]} ∪ list_to_set (clients s)) ∩ snd sel))
      as [_|Hno]; [|exfalso; apply Hno; set_solver].
    unfold bind at 1, sys_accept, bind at 1, get_trace, bind at 1.
    rewrite emit_run. unfold ret at 1. cbn [trace add_events]. fold new_client.
    replace (new_client <? 0) with true by (symmetry; apply Z.ltb_lt; lia).
    unfold cerr, bind at 1. rewrite emit_run. unfold ret.
    unfold add_events. cbn [clients client_names trace].
    now rewrite <- !app_assoc. }
  repeat split; [exact Hit|].
  intros n. cbn [run]. unfold bind. now rewrite Hit.
Qed.

(** C8, as stated, fails: connection 4 is reported ready by the same
    select as the listening socket 3, accept fails, and the pass ends
    without reading 4. *)
Lemma failed_accept_skips_ready_clients :
  let os := mkOS (fun _ _ _ => (2, {[3; 4]})) (fun _ => -1)
                 (fun _ _ => ReadBytes ["h"%char; "i"%char]) in
  let s := mkServer [4] (<[4 := "alice"]> ∅) [] in
  4 ∈ (({[3]} ∪ list_to_set (clients s)) ∩ {[3; 4]} : gset Z)
  /\ iteration os 3 s
     = Ret [] (add_events s [EvSelect 5; EvAccept (-1);
                             EvCerr [LStr "Accept failed!"]]).
Proof.
  split.
  - cbn [clients]. set_solver.
  - vm_compute. reflexivity.
Qed.

(** * The theorems at work on small servers *)

Lemma chat_line_reaches_every_other_client_witness :
  session 0 4 (ReadBytes hi_chunk) alice_and_bob
  = Ret 0 (add_events alice_and_bob
             [EvCout [LStr "alice"; LStr ": "; LStr "hi"];
              EvBroadcast "alice: hi" 4; EvSend 5 "alice: hi"]).
Proof.
  apply (chat_line_reaches_every_other_client
           0 4 "alice" hi_chunk alice_and_bob).
  - reflexivity.
  - discriminate.
  - left. vm_compute. lia.
Defined.

Lemma broadcast_skips_only_the_excluded_witness :
  sent_to 5 (deliveries "hi" 4 (clients alice_and_bob)) = ["hi"]
  /\ deliveries "bye" (-1) (clients one_pass_server)
     = map (fun d => EvSend d "bye") (clients one_pass_server).
Proof.
  split.
  - apply (broadcast_skips_only_the_excluded "hi" 4 alice_and_bob).
    + apply (bool_decide_unpack _). vm_compute. exact I.
    + apply (bool_decide_unpack _). vm_compute. exact I.
    + lia.
  - destruct (broadcast_skips_only_the_excluded "bye" (-1) one_pass_server)
      as (_ & _ & _ & _ & _ & Hall & Hreach).
    apply Hall; [reflexivity|].
    apply (Hreach accepting_os 3 1%nat). vm_compute. reflexivity.
Defined.

Lemma first_chunk_becomes_username_witness :
  session 1 5 (ReadBytes bob_chunk) alice_then_5
  = Ret 1 (mkServer [4; 5] (<[5 := "bob"]> (client_names alice_then_5))
             [EvNamesInsert 5 "bob";
              EvCout [LStr "bob"; LStr " has joined the chat!"];
              EvBroadcast "bob has joined the chat!" 5;
              EvSend 4 "bob has joined the chat!"]).
Proof.
  apply (first_chunk_becomes_username 1 5 bob_chunk alice_then_5).
  - reflexivity.
  - discriminate.
  - left. vm_compute. lia.
Defined.

Lemma departure_of_named_connection_witness :
  exists s1,
    session 1 5 ReadEof alice_and_bob = Ret 0 s1
    /\ trace s1
       = [EvCout [LStr "bob"; LStr " disconnected"];
          EvBroadcast "bob has left the chat" (-1);
          EvSend 4 "bob has left the chat"; EvSend 5 "bob has left the chat";
          EvClose 5; EvClientsErase 1; EvNamesErase 5]
    /\ clients s1 = [4]
    /\ client_names s1 !! 5 = None.
Proof.
  destruct (departure_of_named_connection 1 5 "bob" ReadEof alice_and_bob)
    as (s1 & Hrun & Htr & Hcl & _ & _ & _ & Hnone & _).
  - reflexivity.
  - reflexivity.
  - discriminate.
  - simpl. lia.
  - exists s1. repeat split; assumption.
Defined.

Lemma leaving_before_username_is_silent_witness :
  exists s1,
    session 1 5 ReadError alice_then_5 = Ret 0 s1
    /\ trace s1
       = [EvNamesInsert 5 EmptyString;
          EvCout [LStr "Client (socket "; LInt 5; LStr ")"];
          EvClose 5; EvClientsErase 1; EvNamesErase 5]
    /\ clients s1 = [4]
    /\ client_names s1 = client_names alice_then_5.
Proof.
  destruct (leaving_before_username_is_silent 1 5 ReadError alice_then_5)
    as (s1 & Hrun & Htr & _ & _ & Hcl & _ & Hnm & _).
  - reflexivity.
  - reflexivity.
  - simpl. lia.
  - exists s1. repeat split; assumption.
Defined.

Lemma empty_username_leaves_silently_witness :
  session 0 4 ReadEof nameless_4
  = Ret (-1) (mkServer [] (delete 4 (client_names nameless_4))
                [EvCout [LStr "Client (socket "; LInt 4; LStr ")"];
                 EvClose 4; EvClientsErase 0; EvNamesErase 4]).
Proof.
  apply (empty_username_leaves_silently 0 4 ReadEof nameless_4).
  - reflexivity.
  - reflexivity.
  - simpl. lia.
Defined.

Lemma side_effects_of_one_read_witness :
  exists i' s1 evs,
    session 1 5 ReadEof alice_and_bob = Ret i' s1
    /\ trace s1 = trace alice_and_bob ++ evs
    /\ (length (List.filter is_names_write evs) <= 1)%nat
    /\ (length (List.filter is_clients_write evs) <= 1)%nat
    /\ (length (List.filter is_broadcast evs) <= 1)%nat.
Proof.
  destruct (side_effects_of_one_read 1 5 ReadEof alice_and_bob)
    as (i' & s1 & evs & Hrun & Htr & _ & _ & Hn & Hc & _ & Hb).
  - reflexivity.
  - left. simpl. lia.
  - exists i', s1, evs. repeat split; try assumption.
    apply Hn. intros [_ H]. discriminate H.
Defined.

Lemma username_is_never_overwritten_witness :
  let s1 := add_events alice_and_bob
              [EvCout [LStr "alice"; LStr ": "; LStr "hi"];
               EvBroadcast "alice: hi" 4; EvSend 5 "alice: hi"] in
  client_names s1 !! 4 = Some "alice"
  ∨ (client_names s1 !! 4 = None
     /\ 4 = 4 /\ valread (ReadBytes hi_chunk) <= 0
     /\ clients s1 = delete (Z.to_nat 0) (clients alice_and_bob)
     /\ (exists evs, trace s1 = trace alice_and_bob ++ evs /\ EvClose 4 ∈ evs)).
Proof.
  intros s1.
  apply (username_is_never_overwritten
           0 4 (ReadBytes hi_chunk) alice_and_bob 0 s1 4 "alice").
  - reflexivity.
  - vm_compute. reflexivity.
Defined.

Lemma scan_visits_each_connection_once_witness :
  exists s1 evs,
    scan closing_os {[5]} three_clients = Ret (clients three_clients) s1
    /\ trace s1 = trace three_clients ++ evs
    /\ reads_of evs = filter (fun c => c ∈ ({[5]} : gset Z)) (clients three_clients).
Proof.
  apply (scan_visits_each_connection_once closing_os {[5]} three_clients).
  - vm_compute. discriminate.
  - intros h fd. vm_compute. eauto.
Defined.

Lemma failed_accept_ends_the_pass_witness :
  iteration refusing_os 3 alice_and_bob
  = Ret [] (add_events alice_and_bob
              [EvSelect 6; EvAccept (-1); EvCerr [LStr "Accept failed!"]]).
Proof.
  apply (failed_accept_ends_the_pass refusing_os 3 alice_and_bob).
  - simpl. lia.
  - simpl. set_solver.
  - simpl. lia.
Defined.

(** * The loop as a whole *)

(** ** What one visit can do *)

Lemma to_size_t_int i : 0 <= i <= INT_MAX -> to_size_t i = i.
Proof.
  intros H. unfold to_size_t. apply Z.mod_small. unfold INT_MAX in H. lia.
Qed.

(** A visit that returns left the server alone (the connection was not
    ready), or read once and then took the departure path at index [i], or
    read once and took the data path. *)
Lemma visit_cases os read_fds i s v s' :
  0 <= i <= INT_MAX ->
  visit os read_fds i s = Ret v s' ->
  exists c,
    fst v = c /\ clients s !! Z.to_nat i = Some c
    /\ (((c ∉ read_fds) /\ s' = s /\ snd v = i)
        ∨ (c ∈ read_fds
           /\ valread (os_read os (trace s) c) <= 0
           /\ snd v = i - 1
           /\ s' = mkServer (delete (Z.to_nat i) (clients s))
                            (delete c (client_names s))
                            (trace s ++ EvRead c (os_read os (trace s) c)
                               :: departure_events (Z.to_nat i) c s))
        ∨ (c ∈ read_fds
           /\ 0 < valread (os_read os (trace s) c)
           /\ snd v = i
           /\ exists message,
                c_string (buffer_after (os_read os (trace s) c)) = Some message
                /\ s' = mkServer (clients s) (data_names c message s)
                                 (trace s ++ EvRead c (os_read os (trace s) c)
                                    :: data_events c message s))).
Proof.
  intros Hi Hv. unfold visit, bind at 1, clients_at, bind at 1, get_clients in Hv.
  rewrite (to_size_t_int i Hi) in Hv.
  destruct (clients s !! Z.to_nat i) as [c|] eqn:Hc; [|discriminate].
  unfold ret at 1 in Hv. exists c.
  destruct (decide (c ∈ read_fds)) as [Hready|Hidle].
  - rewrite (bind_Ret _ _ _ _ _ (sys_read_run os c s)) in Hv.
    unfold bind at 1 in Hv. rewrite session_run in Hv.
    destruct (valread (os_read os (trace s) c) <=? 0) eqn:Hval.
    + rewrite on_disconnect_run in Hv. cbn [clients add_events] in Hv.
      destruct ((0 <=? i) && (i <? Z.of_nat (length (clients s))));
        [|discriminate].
      unfold ret in Hv. inversion Hv; subst; clear Hv. cbn [fst snd].
      split; [reflexivity|]. split; [reflexivity|]. right. left.
      split; [assumption|]. split; [now apply Z.leb_le|].
      split; [reflexivity|].
      cbn [trace client_names]. rewrite <- app_assoc. reflexivity.
    + destruct (c_string (buffer_after (os_read os (trace s) c)))
        as [message|] eqn:Hm; [|discriminate].
      unfold ret in Hv. inversion Hv; subst; clear Hv. cbn [fst snd].
      split; [reflexivity|]. split; [reflexivity|]. right. right.
      split; [assumption|]. split; [now apply Z.leb_gt|].
      split; [reflexivity|]. exists message. split; [reflexivity|].
      cbn [trace clients add_events]. rewrite <- app_assoc. reflexivity.
  - unfold ret in Hv. inversion Hv; subst; clear Hv. cbn [fst snd].
    split; [reflexivity|]. split; [reflexivity|]. left. auto.
Qed.

(** ** From the visits to the passes *)

Section Lift.

Variable os : OS.
Variable server_fd : Z.
Variable P : Server -> Prop.

Lemma scan_loop_keeps fuel read_fds :
  (forall i s v s',
     0 <= i <= INT_MAX -> P s -> visit os read_fds i s = Ret v s' -> P s') ->
  forall i, 0 <= i <= INT_MAX -> keeps P (scan_loop os fuel read_fds i).
Proof.
  intros P_visit.
  induction fuel as [|fuel IH]; intros i Hi s Hs; rewrite scan_loop_unfold.
  - destruct (to_size_t i <? Z.of_nat (length (clients s))); [exact I|exact Hs].
  - destruct (to_size_t i <? Z.of_nat (length (clients s))); [|exact Hs].
    destruct (visit os read_fds i s) as [v s1| |] eqn:Hv; [|exact I|exact I].
    pose proof (P_visit i s v s1 Hi Hs Hv) as Hs1.
    destruct (visit_cases os read_fds i s v s1 Hi Hv)
      as (c & _ & _ & Hcase).
    assert (Hsnd : i - 1 <= snd v <= i).
    { destruct Hcase as [(_ & _ & ->)|[(_ & _ & -> & _)|(_ & _ & -> & _)]];
        lia. }
    unfold int_incr. destruct (snd v <? INT_MAX) eqn:Hlt; [|exact I].
    unfold ret. apply Z.ltb_lt in Hlt.
    assert (Hi' : 0 <= snd v + 1 <= INT_MAX) by lia.
    specialize (IH (snd v + 1) Hi' s1 Hs1).
    destruct (scan_loop os fuel read_fds (snd v + 1) s1); [exact IH|exact I|exact I].
Qed.

Hypothesis P_visit :
  forall read_fds i s v s',
    0 <= i <= INT_MAX -> P s -> visit os read_fds i s = Ret v s' -> P s'.
Hypothesis P_select :
  forall s nfds, P s -> P (add_events s [EvSelect nfds]).
Hypothesis P_cerr :
  forall s line, P s -> P (add_events s [EvCerr line]).
Hypothesis P_accept :
  forall s,
    P s -> 0 <= os_accept os (trace s) ->
    P (mkServer (clients s ++ [os_accept os (trace s)]) (client_names s)
         (trace s
          ++ [EvAccept (os_accept os (trace s));
              EvClientsPush (os_accept os (trace s));
              EvCout [LStr "New client connected (socket ";
                      LInt (os_accept os (trace s)); LStr ")"];
              EvSend (os_accept os (trace s)) "Enter your username: "])).
Hypothesis P_accept_failed :
  forall s,
    P s -> os_accept os (trace s) < 0 ->
    P (add_events s [EvAccept (os_accept os (trace s))]).

Lemma accept_phase_keeps read_fds :
  keeps P (accept_phase os server_fd read_fds).
Proof.
  intros s Hs. unfold accept_phase.
  destruct (decide (server_fd ∈ read_fds)); [|exact Hs].
  unfold sys_accept, get_trace, cerr, cout, send, clients_push_back,
    get_clients, set_clients, emit, bind, ret. cbn.
  destruct (os_accept os (trace s) <? 0) eqn:Hneg; cbn.
  - apply (P_cerr (add_events s [EvAccept (os_accept os (trace s))])).
    apply P_accept_failed; [exact Hs|]. now apply Z.ltb_lt.
  - apply Z.ltb_ge in Hneg. pose proof (P_accept s Hs Hneg) as H.
    rewrite <- !app_assoc. exact H.
Qed.

Lemma iteration_keeps : keeps P (iteration os server_fd).
Proof.
  intros s Hs. unfold iteration, bind at 1, get_clients.
  unfold bind at 1, sys_select, bind at 1, get_trace, bind at 1.
  rewrite emit_run. unfold ret at 1. cbn [fst snd].
  pose proof (P_select s (max_fd_of server_fd (clients s) + 1) Hs) as Hsel.
  set (s0 := add_events s [EvSelect (max_fd_of server_fd (clients s) + 1)]) in *.
  destruct (fst (os_select os (trace s) _ _) <? 0).
  - unfold cerr, bind. rewrite emit_run. unfold ret. now apply P_cerr.
  - unfold bind at 1.
    match goal with |- context [accept_phase os server_fd ?rf s0] =>
      pose proof (accept_phase_keeps rf s0 Hsel) as Ha;
      destruct (accept_phase os server_fd rf s0) as [go_on s1| |];
        [|exact I|exact I];
      destruct go_on; [|exact Ha];
      unfold scan, bind, get_clients;
      apply (scan_loop_keeps (length (clients s1)) rf (P_visit rf) 0);
        [|exact Ha]
    end.
    unfold INT_MAX. lia.
Qed.

Lemma run_keeps n : keeps P (run os server_fd n).
Proof.
  induction n as [|n IH]; intros s Hs; cbn [run]; [exact Hs|].
  unfold bind. pose proof (iteration_keeps s Hs) as Hi.
  destruct (iteration os server_fd s) as [v s1| |]; [|exact I|exact I].
  now apply IH.
Qed.

End Lift.

(** ** Lists with one element erased *)

Lemma elem_of_delete_other (l : list Z) (i : nat) c d :
  l !! i = Some c -> d ∈ l -> d ≠ c -> d ∈ delete i l.
Proof.
  intros Hi Hd Hne. rewrite <- (take_drop_middle l i c Hi) in Hd.
  rewrite delete_take_drop.
  rewrite elem_of_app, elem_of_cons in Hd. rewrite elem_of_app.
  destruct Hd as [Hd|[Hd|Hd]]; [now left|congruence|now right].
Qed.

Lemma count_occ_delete (l : list Z) (i : nat) c fd :
  l !! i = Some c ->
  count_occ Z.eq_dec l fd
  = (count_occ Z.eq_dec (delete i l) fd + if decide (c = fd) then 1 else 0)%nat.
Proof.
  intros Hi. rewrite <- (take_drop_middle l i c Hi) at 1.
  rewrite delete_take_drop. rewrite !count_occ_app. simpl.
  destruct (Z.eq_dec c fd), (decide (c = fd)); try congruence; lia.
Qed.

Lemma filter_delete_dropped (Q : Z -> Prop) `{forall x, Decision (Q x)}
      (l : list Z) (i : nat) c :
  l !! i = Some c -> ~ Q c -> filter Q (delete i l) = filter Q l.
Proof.
  intros Hi Hc. rewrite <- (take_drop_middle l i c Hi) at 2.
  rewrite delete_take_drop. rewrite !filter_app, filter_cons.
  now destruct (decide (Q c)).
Qed.

(** ** Usernames belong to tracked connections *)

Lemma run_keeps_names_tracked os server_fd n :
  keeps names_tracked (run os server_fd n).
Proof.
  apply run_keeps.
  - intros read_fds i s1 v s2 Hi Hs Hv.
    destruct (visit_cases os read_fds i s1 v s2 Hi Hv)
      as (c & _ & Hc
          & [(_ & -> & _)
            |[(_ & _ & _ & ->)|(_ & _ & _ & message & _ & ->)]]).
    + exact Hs.
    + intros d Hd. cbn [client_names clients] in *.
      destruct (decide (d = c)) as [->|Hne].
      * rewrite lookup_delete_eq in Hd. now destruct Hd.
      * rewrite lookup_delete_ne in Hd by congruence.
        apply (elem_of_delete_other _ _ c); auto.
    + intros d Hd. cbn [client_names clients] in *.
      unfold data_names in Hd.
      destruct (client_names s1 !! c) eqn:Hn; [now apply Hs|].
      destruct (decide (d = c)) as [->|Hne].
      * apply list_elem_of_lookup. eauto.
      * rewrite lookup_insert_ne in Hd by congruence. now apply Hs.
  - intros s1 nfds Hs. exact Hs.
  - intros s1 line Hs. exact Hs.
  - intros s1 Hs _ d Hd. cbn [client_names clients] in *.
    apply elem_of_app. left. now apply Hs.
  - intros s1 Hs _. exact Hs.
Qed.

(** However the clients and the operating system behave, every entry of
    the UsernameMap is, between two passes, the entry of a descriptor of
    the ConnectionSet: no username outlives its connection. *)
Theorem usernames_belong_to_tracked_connections os server_fd n s0 s :
  names_tracked s0 ->
  run os server_fd n s0 = Ret tt s ->
  names_tracked s.
Proof.
  intros H0 Hrun.
  pose proof (run_keeps_names_tracked os server_fd n s0 H0) as K.
  rewrite Hrun in K. exact K.
Qed.

Lemma usernames_belong_to_tracked_connections_witness :
  exists s,
    run two_clients_os 3 2 initial = Ret tt s
    /\ client_names s !! 4 = Some "alice"
    /\ names_tracked s.
Proof.
  eexists. split; [vm_compute; reflexivity|]. split; [reflexivity|].
  apply (usernames_belong_to_tracked_connections
           two_clients_os 3 2 initial).
  - intros d [u Hu]. simpl in Hu. rewrite lookup_empty in Hu. discriminate.
  - vm_compute. reflexivity.
Defined.

(** ** Every accepted descriptor is tracked or closed *)

Lemma accepted_app fd t1 t2 :
  accepted fd (t1 ++ t2) = (accepted fd t1 + accepted fd t2)%nat.
Proof. unfold accepted. now rewrite List.filter_app, length_app. Qed.

Lemma closed_app fd t1 t2 :
  closed fd (t1 ++ t2) = (closed fd t1 + closed fd t2)%nat.
Proof. unfold closed. now rewrite List.filter_app, length_app. Qed.

Lemma filter_deliveries_nil (f : event -> bool) message excl l :
  (forall d msg, f (EvSend d msg) = false) ->
  List.filter f (deliveries message excl l) = [].
Proof.
  intros Hf. unfold deliveries.
  induction (filter (fun client => client ≠ excl) l) as [|d l' IH];
    [reflexivity|].
  simpl. now rewrite Hf.
Qed.

Ltac count_events :=
  rewrite ?List.filter_app; simpl;
  rewrite ?filter_deliveries_nil by (intros; reflexivity);
  simpl; rewrite ?length_app; simpl.

Lemma accepted_departure_events fd i c s :
  accepted fd (departure_events i c s) = 0%nat.
Proof.
  unfold accepted, departure_events.
  destruct (client_names s !! c);
    destruct (decide (leaving_name c s = EmptyString));
    count_events; reflexivity.
Qed.

Lemma closed_departure_events fd i c s :
  closed fd (departure_events i c s) = if decide (c = fd) then 1%nat else 0%nat.
Proof.
  unfold closed, departure_events.
  destruct (client_names s !! c);
    destruct (decide (leaving_name c s = EmptyString));
    count_events; unfold bool_decide;
    destruct (decide_rel eq c fd), (decide (c = fd)); try congruence;
    reflexivity.
Qed.

Lemma accepted_data_events fd c message s :
  accepted fd (data_events c message s) = 0%nat.
Proof.
  unfold accepted, data_events.
  destruct (client_names s !! c); count_events; reflexivity.
Qed.

Lemma closed_data_events fd c message s :
  closed fd (data_events c message s) = 0%nat.
Proof.
  unfold closed, data_events.
  destruct (client_names s !! c); count_events; reflexivity.
Qed.

Lemma run_keeps_accounted os server_fd n :
  keeps accounted (run os server_fd n).
Proof.
  apply run_keeps.
  - intros read_fds i s1 v s2 Hi Hs Hv.
    destruct (visit_cases os read_fds i s1 v s2 Hi Hv)
      as (c & _ & Hc
          & [(_ & -> & _)
            |[(_ & _ & _ & ->)|(_ & _ & _ & message & _ & ->)]]).
    + exact Hs.
    + intros fd Hfd. specialize (Hs fd Hfd). cbn [clients trace].
      rewrite accepted_app, closed_app.
      change (EvRead c ?r :: ?t) with ([EvRead c r] ++ t).
      rewrite accepted_app, closed_app.
      rewrite accepted_departure_events, closed_departure_events.
      rewrite (count_occ_delete _ _ _ fd Hc) in Hs.
      change (accepted fd [EvRead c ?r]) with 0%nat.
      change (closed fd [EvRead c ?r]) with 0%nat.
      destruct (decide (c = fd)); lia.
    + intros fd Hfd. specialize (Hs fd Hfd). cbn [clients trace].
      rewrite accepted_app, closed_app.
      change (EvRead c ?r :: ?t) with ([EvRead c r] ++ t).
      rewrite accepted_app, closed_app.
      rewrite accepted_data_events, closed_data_events.
      change (accepted fd [EvRead c ?r]) with 0%nat.
      change (closed fd [EvRead c ?r]) with 0%nat.
      lia.
  - intros s1 nfds Hs fd Hfd. specialize (Hs fd Hfd).
    cbn [add_events clients trace]. rewrite accepted_app, closed_app.
    change (accepted fd [EvSelect nfds]) with 0%nat.
    change (closed fd [EvSelect nfds]) with 0%nat. lia.
  - intros s1 line Hs fd Hfd. specialize (Hs fd Hfd).
    cbn [add_events clients trace]. rewrite accepted_app, closed_app.
    change (accepted fd [EvCerr line]) with 0%nat.
    change (closed fd [EvCerr line]) with 0%nat. lia.
  - intros s1 Hs Hnew fd Hfd. specialize (Hs fd Hfd).
    cbn [clients trace]. rewrite accepted_app, closed_app, count_occ_app.
    unfold accepted at 2, closed at 2. simpl. unfold bool_decide.
    destruct (decide_rel eq (os_accept os (trace s1)) fd),
      (Z.eq_dec (os_accept os (trace s1)) fd); try congruence;
      simpl; lia.
  - intros s1 Hs Hneg fd Hfd. specialize (Hs fd Hfd).
    cbn [add_events clients trace]. rewrite accepted_app, closed_app.
    unfold accepted at 2, closed at 2. simpl. unfold bool_decide.
    destruct (decide_rel eq (os_accept os (trace s1)) fd); [lia|].
    simpl. lia.
Qed.

(** Whatever the clients and the operating system do, between two passes
    every descriptor that accept has returned is in the ConnectionSet or
    has been closed, counted with repetition: no accepted descriptor is
    dropped without close, none is closed twice, none is closed and still
    tracked. *)
Theorem accepted_descriptors_are_tracked_or_closed os server_fd n s0 s :
  accounted s0 ->
  run os server_fd n s0 = Ret tt s ->
  accounted s.
Proof.
  intros H0 Hrun.
  pose proof (run_keeps_accounted os server_fd n s0 H0) as K.
  rewrite Hrun in K. exact K.
Qed.

Lemma accepted_descriptors_are_tracked_or_closed_witness :
  exists s,
    run two_clients_os 3 6 initial = Ret tt s
    /\ clients s = [4]
    /\ closed 5 (trace s) = 1%nat
    /\ accounted s.
Proof.
  eexists. split; [vm_compute; reflexivity|].
  split; [reflexivity|]. split; [reflexivity|].
  apply (accepted_descriptors_are_tracked_or_closed
           two_clients_os 3 6 initial).
  - intros fd Hfd. reflexivity.
  - vm_compute. reflexivity.
Defined.

(** ** Only tracked descriptors are used *)

Lemma replay_cons e tr l : replay (e :: tr) l = replay tr (replay [e] l).
Proof. now destruct e. Qed.

Lemma on_tracked_app t1 t2 l :
  on_tracked (t1 ++ t2) l <-> on_tracked t1 l /\ on_tracked t2 (replay t1 l).
Proof.
  revert l. induction t1 as [|e t1 IH]; intros l.
  - simpl. tauto.
  - rewrite replay_cons. cbn [app on_tracked]. rewrite IH. tauto.
Qed.

Lemma on_tracked_sends message (l0 l : list Z) :
  (forall d, d ∈ l0 -> d ∈ l) ->
  on_tracked (map (fun client => EvSend client message) l0) l.
Proof.
  induction l0 as [|d l0 IH]; intros Hsub; [exact I|].
  cbn [map on_tracked replay]. split.
  - apply Hsub. left.
  - apply IH. intros x Hx. apply Hsub. now right.
Qed.

Lemma on_tracked_deliveries message excl (l : list Z) :
  on_tracked (deliveries message excl l) l.
Proof.
  unfold deliveries. apply on_tracked_sends.
  intros d Hd. now apply list_elem_of_filter in Hd as [_ Hd].
Qed.

Lemma on_tracked_departure_events (i : nat) c s :
  clients s !! i = Some c ->
  on_tracked (departure_events i c s) (clients s).
Proof.
  intros Hc. assert (Hin : c ∈ clients s).
  { apply list_elem_of_lookup. eauto. }
  unfold departure_events. rewrite !on_tracked_app. repeat split.
  - now destruct (client_names s !! c).
  - assert (Hsame : replay (match client_names s !! c with
                            | Some _ => []
                            | None => [EvNamesInsert c EmptyString]
                            end) (clients s) = clients s)
      by now destruct (client_names s !! c).
    rewrite Hsame.
    destruct (decide (leaving_name c s = EmptyString)); [now split|].
    cbn [on_tracked replay]. repeat split. apply on_tracked_deliveries.
  - assert (Hsame : forall t,
        replay (match client_names s !! c with
                | Some _ => []
                | None => [EvNamesInsert c EmptyString]
                end ++ t) (clients s) = replay t (clients s)).
    { intros t. now destruct (client_names s !! c). }
    rewrite <- replay_app, Hsame.
    destruct (decide (leaving_name c s = EmptyString)); cbn [replay];
      rewrite ?replay_deliveries; exact Hin.
Qed.

Lemma on_tracked_data_events c message s :
  on_tracked (data_events c message s) (clients s).
Proof.
  unfold data_events. destruct (client_names s !! c);
    cbn [on_tracked replay]; repeat split; apply on_tracked_deliveries.
Qed.

Lemma run_keeps_served os server_fd n :
  keeps served (run os server_fd n).
Proof.
  apply run_keeps.
  - intros read_fds i s1 v s2 Hi [Hr Hs] Hv.
    destruct (visit_cases os read_fds i s1 v s2 Hi Hv)
      as (c & _ & Hc
          & [(_ & -> & _)
            |[(_ & _ & _ & ->)|(_ & _ & _ & message & _ & ->)]]).
    + now split.
    + assert (Hin : c ∈ clients s1) by (apply list_elem_of_lookup; eauto).
      split; cbn [clients trace].
      * rewrite replay_app, <- Hr. rewrite replay_cons.
        cbn [replay]. now rewrite replay_departure_events.
      * apply on_tracked_app. split; [exact Hs|]. rewrite <- Hr.
        cbn [on_tracked replay]. split; [exact Hin|].
        now apply on_tracked_departure_events.
    + assert (Hin : c ∈ clients s1) by (apply list_elem_of_lookup; eauto).
      split; cbn [clients trace].
      * rewrite replay_app, <- Hr. rewrite replay_cons.
        cbn [replay]. now rewrite replay_data_events.
      * apply on_tracked_app. split; [exact Hs|]. rewrite <- Hr.
        cbn [on_tracked replay]. split; [exact Hin|].
        apply on_tracked_data_events.
  - intros s1 nfds [Hr Hs]. split; cbn [add_events clients trace].
    + now rewrite replay_app, <- Hr.
    + apply on_tracked_app. split; [exact Hs|]. now split.
  - intros s1 line [Hr Hs]. split; cbn [add_events clients trace].
    + now rewrite replay_app, <- Hr.
    + apply on_tracked_app. split; [exact Hs|]. now split.
  - intros s1 [Hr Hs] _. split; cbn [clients trace].
    + now rewrite replay_app, <- Hr.
    + apply on_tracked_app. split; [exact Hs|]. rewrite <- Hr.
      cbn [on_tracked replay]. repeat split.
      apply elem_of_app. right. left.
  - intros s1 [Hr Hs] _. split; cbn [add_events clients trace].
    + now rewrite replay_app, <- Hr.
    + apply on_tracked_app. split; [exact Hs|]. now split.
Qed.



(** ** Distinct descriptors *)

(** When accept never returns a descriptor that is still in the
    ConnectionSet, the ConnectionSet never holds a descriptor twice,
    whatever the clients do. *)
Theorem tracked_descriptors_stay_distinct os server_fd n s0 s :
  fresh_accepts os ->
  tracked_once s0 ->
  run os server_fd n s0 = Ret tt s ->
  distinct s.
Proof.
  intros Hfresh H0 Hrun.
  pose proof (keeps_run_once os server_fd Hfresh n s0 H0) as K.
  rewrite Hrun in K. destruct K as [_ K]. exact K.
Qed.

Lemma tracked_descriptors_stay_distinct_witness :
  exists s,
    run next_fd_os 3 2 initial = Ret tt s
    /\ clients s = [4; 5]
    /\ distinct s.
Proof.
  eexists. split; [vm_compute; reflexivity|]. split; [reflexivity|].
  apply (tracked_descriptors_stay_distinct next_fd_os 3 2 initial).
  - exact next_fd_os_fresh.
  - split; [reflexivity|constructor].
  - vm_compute. reflexivity.
Defined.

(** ** What a scan leaves alone *)

(** A scan touches only the connections that select reported ready: the
    others stay in the ConnectionSet, in their order, and keep their
    UsernameMap entry or their lack of one; and the scan adds no
    connection, the ConnectionSet after it is a sublist of the one
    before. *)
Theorem scan_leaves_idle_connections_alone os read_fds s visited s1 :
  scan os read_fds s = Ret visited s1 ->
  filter (fun d => d ∉ read_fds) (clients s1)
  = filter (fun d => d ∉ read_fds) (clients s)
  /\ (forall d, d ∉ read_fds -> client_names s1 !! d = client_names s !! d)
  /\ clients s1 `sublist_of` clients s.
Proof.
  intros Hscan.
  set (P := fun s' : Server =>
              filter (fun d => d ∉ read_fds) (clients s')
              = filter (fun d => d ∉ read_fds) (clients s)
              /\ (forall d, d ∉ read_fds ->
                    client_names s' !! d = client_names s !! d)
              /\ clients s' `sublist_of` clients s).
  assert (K : keeps P (scan_loop os (length (clients s)) read_fds 0)).
  { apply scan_loop_keeps; [|unfold INT_MAX; lia].
    intros i s2 v s3 Hi (Hf & Hn & Hsub) Hv.
    destruct (visit_cases os read_fds i s2 v s3 Hi Hv)
      as (c & _ & Hc
          & [(_ & -> & _)
            |[(Hrd & _ & _ & ->)|(Hrd & _ & _ & message & _ & ->)]]).
    - now repeat split.
    - unfold P. cbn [clients client_names]. repeat split.
      + rewrite <- Hf. apply (filter_delete_dropped _ _ _ c); [exact Hc|].
        intros Hnot. now apply Hnot.
      + intros d Hd. rewrite <- (Hn d Hd).
        apply lookup_delete_ne. intros ->. now apply Hd.
      + etransitivity; [apply sublist_delete|exact Hsub].
    - unfold P. cbn [clients client_names]. repeat split.
      + exact Hf.
      + intros d Hd. rewrite <- (Hn d Hd). unfold data_names.
        destruct (client_names s2 !! c); [reflexivity|].
        apply lookup_insert_ne. intros ->. now apply Hd.
      + exact Hsub. }
  unfold scan, bind, get_clients in Hscan.
  assert (P s) as Hs by (unfold P; repeat split; reflexivity).
  specialize (K s Hs). rewrite Hscan in K. exact K.
Qed.

Lemma scan_leaves_idle_connections_alone_witness :
  exists visited s1,
    scan closing_os {[5]} three_clients = Ret visited s1
    /\ clients s1 = [4; 6]
    /\ filter (fun d => d ∉ ({[5]} : gset Z)) (clients s1)
       = filter (fun d => d ∉ ({[5]} : gset Z)) (clients three_clients).
Proof.
  eexists. eexists. split; [vm_compute; reflexivity|].
  split; [reflexivity|].
  apply (scan_leaves_idle_connections_alone
           closing_os {[5]} three_clients [4; 5; 6]).
  vm_compute. reflexivity.
Defined.

(** ** One pass, step by step *)

Lemma accept_phase_run os server_fd read_fds s :
  accept_phase os server_fd read_fds s
  = if decide (server_fd ∈ read_fds) then
      if os_accept os (trace s) <? 0 then
        Ret false (add_events s [EvAccept (os_accept os (trace s));
                                 EvCerr [LStr "Accept failed!"]])
      else
        Ret true
            (mkServer (clients s ++ [os_accept os (trace s)]) (client_names s)
               (trace s
                ++ [EvAccept (os_accept os (trace s));
                    EvClientsPush (os_accept os (trace s));
                    EvCout [LStr "New client connected (socket ";
                            LInt (os_accept os (trace s)); LStr ")"];
                    EvSend (os_accept os (trace s)) "Enter your username: "]))
    else Ret true s.
Proof.
  unfold accept_phase. destruct (decide (server_fd ∈ read_fds)); [|reflexivity].
  unfold sys_accept, get_trace, cerr, cout, send, clients_push_back,
    get_clients, set_clients, emit, bind, ret. cbn.
  destruct (os_accept os (trace s) <? 0); cbn.
  - unfold add_events. cbn. now rewrite <- !app_assoc.
  - now rewrite <- !app_assoc.
Qed.

Lemma iteration_unfold os server_fd s :
  iteration os server_fd s
  = if fst (os_select os (trace s) (max_fd_of server_fd (clients s) + 1)
              ({[server_fd]} ∪ list_to_set (clients s))) <? 0
    then
      Ret [] (add_events s [EvSelect (max_fd_of server_fd (clients s) + 1);
                            EvCerr [LStr "Select error"]])
    else
      match accept_phase os server_fd
              (({[server_fd]} ∪ list_to_set (clients s))
               ∩ snd (os_select os (trace s)
                        (max_fd_of server_fd (clients s) + 1)
                        ({[server_fd]} ∪ list_to_set (clients s))))
              (add_events s [EvSelect (max_fd_of server_fd (clients s) + 1)])
      with
      | Ret go_on s1 =>
          if go_on then
            scan os
              (({[server_fd]} ∪ list_to_set (clients s))
               ∩ snd (os_select os (trace s)
                        (max_fd_of server_fd (clients s) + 1)
                        ({[server_fd]} ∪ list_to_set (clients s))))
              s1
          else Ret [] s1
      | Undefined => Undefined
      | OutOfFuel => OutOfFuel
      end.
Proof.
  unfold iteration, bind at 1, get_clients.
  unfold bind at 1, sys_select, bind at 1, get_trace, bind at 1.
  rewrite emit_run. unfold ret at 1. cbn [fst snd].
  destruct (fst (os_select os (trace s) _ _) <? 0).
  - unfold cerr, bind. rewrite emit_run. unfold ret.
    now rewrite add_events_app.
  - unfold bind.
    destruct (accept_phase os server_fd _ _) as [go_on s1| |]; try reflexivity.
    now destruct go_on.
Qed.

(** When select fails, the failure is logged and the pass ends there:
    accept is not called, no connection is read, nothing is sent, the
    ConnectionSet and the UsernameMap are unchanged, and the next pass
    begins at once. *)
Theorem failed_select_ends_the_pass os server_fd s :
  let nfds := max_fd_of server_fd (clients s) + 1 in
  let evs := [EvSelect nfds; EvCerr [LStr "Select error"]] in
  fst (os_select os (trace s) nfds
         ({[server_fd]} ∪ list_to_set (clients s))) < 0 ->
  iteration os server_fd s = Ret [] (add_events s evs)
  /\ (forall n,
        run os server_fd (S n) s = run os server_fd n (add_events s evs)).
Proof.
  intros nfds evs Hsel.
  assert (Hit : iteration os server_fd s = Ret [] (add_events s evs)).
  { rewrite iteration_unfold. fold nfds.
    replace (fst (os_select os (trace s) nfds
                    ({[server_fd]} ∪ list_to_set (clients s))) <? 0)
      with true by (symmetry; now apply Z.ltb_lt).
    reflexivity. }
  split; [exact Hit|].
  intros n. cbn [run]. unfold bind. now rewrite Hit.
Qed.

Lemma failed_select_ends_the_pass_witness :
  iteration (mkOS (fun _ _ _ => (-1, {[3; 4]})) (fun _ => 6)
                  (fun _ _ => ReadEof)) 3 alice_and_bob
  = Ret [] (add_events alice_and_bob
              [EvSelect 6; EvCerr [LStr "Select error"]]).
Proof.
  apply (failed_select_ends_the_pass
           (mkOS (fun _ _ _ => (-1, {[3; 4]})) (fun _ => 6)
                 (fun _ _ => ReadEof)) 3 alice_and_bob).
  simpl. lia.
Defined.

(** When the listening socket is ready and accept succeeds, the new
    descriptor is appended to the ConnectionSet, logged and sent the
    prompt, and nothing else, before any client is read; the scan of the
    same pass visits it last, and does not read it when it is a new
    descriptor, since the ready set was computed before it was accepted. *)
Theorem accepted_connection_is_greeted_and_not_read os server_fd s :
  let nfds := max_fd_of server_fd (clients s) + 1 in
  let interest : gset Z := {[server_fd]} ∪ list_to_set (clients s) in
  let sel := os_select os (trace s) nfds interest in
  let new_client := os_accept os (trace s ++ [EvSelect nfds]) in
  let greeting :=
    [EvSelect nfds; EvAccept new_client; EvClientsPush new_client;
     EvCout [LStr "New client connected (socket "; LInt new_client; LStr ")"];
     EvSend new_client "Enter your username: "] in
  0 <= fst sel ->
  server_fd ∈ snd sel ->
  0 <= new_client ->
  Z.of_nat (length (clients s)) < INT_MAX ->
  (forall h fd, decodable (os_read os h fd)) ->
  exists s1 evs,
    iteration os server_fd s = Ret (clients s ++ [new_client]) s1
    /\ trace s1 = trace s ++ greeting ++ evs
    /\ reads_of evs
       = filter (fun c => c ∈ interest ∩ snd sel) (clients s ++ [new_client])
    /\ ((new_client ∉ clients s) -> new_client ≠ server_fd ->
        reads_of evs = filter (fun c => c ∈ interest ∩ snd sel) (clients s)
        /\ (new_client ∉ reads_of evs)).
Proof.
  intros nfds interest sel new_client greeting Hsel Hready Hnew Hlen Hdec.
  rewrite iteration_unfold. fold nfds interest sel.
  replace (fst sel <? 0) with false by (symmetry; apply Z.ltb_ge; lia).
  rewrite accept_phase_run.
  destruct (decide (server_fd ∈ interest ∩ snd sel)) as [_|Hno];
    [|exfalso; apply Hno; unfold interest; set_solver].
  cbn [trace add_events]. fold new_client.
  replace (new_client <? 0) with false by (symmetry; apply Z.ltb_ge; lia).
  unfold scan, bind, get_clients. cbn [clients].
  match goal with |- context [scan_loop os _ _ 0 ?s2] =>
    destruct (scan_loop_visits os (interest ∩ snd sel) Hdec
                (clients s ++ [new_client]) []
                (length (clients s ++ [new_client])) s2)
      as (s1 & evs & Hrun & Htr & Hrd)
  end.
  { reflexivity. }
  { lia. }
  { cbn [app]. rewrite length_app. simpl. lia. }
  cbn [length] in Hrun. change (Z.of_nat 0) with 0 in Hrun.
  exists s1, evs. split; [exact Hrun|].
  cbn [trace] in Htr. split.
  { rewrite Htr. unfold greeting. now rewrite <- !app_assoc. }
  split; [exact Hrd|].
  intros Hnot Hne.
  assert (Hidle : new_client ∉ interest ∩ snd sel).
  { intros Hin. apply elem_of_intersection in Hin as [Hin _].
    unfold interest in Hin. apply elem_of_union in Hin as [Hin|Hin].
    - apply elem_of_singleton in Hin. contradiction.
    - apply elem_of_list_to_set in Hin. contradiction. }
  assert (Hrd' : reads_of evs
                 = filter (fun c => c ∈ interest ∩ snd sel) (clients s)).
  { rewrite Hrd, filter_app, filter_cons.
    destruct (decide (new_client ∈ interest ∩ snd sel)); [contradiction|].
    now rewrite filter_nil, app_nil_r. }
  split; [exact Hrd'|].
  rewrite Hrd'. intros Hin. apply list_elem_of_filter in Hin as [_ Hin].
  contradiction.
Qed.

Lemma accepted_connection_is_greeted_and_not_read_witness :
  exists s1 evs,
    iteration busy_os 3 alice_and_bob = Ret [4; 5; 6] s1
    /\ trace s1
       = [EvSelect 6; EvAccept 6; EvClientsPush 6;
          EvCout [LStr "New client connected (socket "; LInt 6; LStr ")"];
          EvSend 6 "Enter your username: "] ++ evs
    /\ (6 ∉ reads_of evs).
Proof.
  destruct (accepted_connection_is_greeted_and_not_read
              busy_os 3 alice_and_bob)
    as (s1 & evs & Hrun & Htr & _ & Hnew).
  - simpl. lia.
  - simpl. set_solver.
  - simpl. lia.
  - simpl. unfold INT_MAX. lia.
  - intros h fd. vm_compute. eauto.
  - exists s1, evs. split; [exact Hrun|]. split; [exact Htr|].
    apply Hnew.
    + apply (bool_decide_unpack _). vm_compute. exact I.
    + simpl. lia.
Defined.

(** ** The message of a read *)

Lemma c_string_None_iff l : c_string l = None <-> zero ∉ l.
Proof.
  induction l as [|ch l IH]; simpl.
  - split; [intros _ H; inversion H|reflexivity].
  - destruct (ascii_dec ch zero) as [->|Hne].
    + split; [discriminate|]. intros H. exfalso. apply H. left.
    + destruct (c_string l) as [str|].
      * split; [discriminate|]. intros H. exfalso.
        assert (Hl : zero ∉ l) by (intros Hin; apply H; now right).
        apply IH in Hl. discriminate.
      * split; [|reflexivity]. intros _ Hin.
        apply elem_of_cons in Hin as [Hin|Hin]; [congruence|].
        now apply (proj1 IH).
Qed.

Lemma c_string_Some l m :
  c_string l = Some m ->
(zero ∉ list_ascii_of_string m)
  /\ exists rest, l = list_ascii_of_string m ++ zero :: rest.
Proof.
  revert m. induction l as [|ch l IH]; intros m Hm; [discriminate|].
  simpl in Hm. destruct (ascii_dec ch zero) as [->|Hne].
  - inversion Hm; subst. simpl. split; [intros H; inversion H|eauto].
  - destruct (c_string l) as [str|]; [|discriminate].
    inversion Hm; subst. destruct (IH str eq_refl) as [Hz [rest ->]].
    simpl. split.
    + intros Hin. apply elem_of_cons in Hin as [Hin|Hin];
        [congruence|contradiction].
    + eauto.
Qed.

Lemma c_string_prefix a k m :
  c_string (a ++ replicate k zero) = Some m ->
  list_ascii_of_string m `prefix_of` a.
Proof.
  revert m. induction a as [|ch a IH]; intros m Hm.
  - simpl in Hm. destruct k as [|k]; [discriminate|].
    simpl in Hm. destruct (ascii_dec zero zero); [|congruence].
    inversion Hm; subst. apply prefix_nil.
  - cbn [app c_string] in Hm. destruct (ascii_dec ch zero).
    + inversion Hm; subst. apply prefix_nil.
    + destruct (c_string (a ++ replicate k zero)) as [str|] eqn:Hs;
        [|discriminate].
      inversion Hm; subst. simpl. apply prefix_cons. now apply IH.
Qed.

Lemma length_buffer_after r : length (buffer_after r) = BUFFER_SIZE.
Proof.
  destruct r as [| |chunk]; unfold buffer_after.
  - apply length_replicate.
  - apply length_replicate.
  - rewrite length_app, length_replicate, length_take. lia.
Qed.

Lemma c_string_zeros : c_string (replicate BUFFER_SIZE zero) = Some EmptyString.
Proof. reflexivity. Qed.

Lemma length_list_ascii_of_string m :
  length (list_ascii_of_string m) = String.length m.
Proof. induction m as [|ch m IH]; simpl; congruence. Qed.

Lemma buffer_without_nul_iff r :
  c_string (buffer_after r) = None
  <-> exists chunk,
        r = ReadBytes chunk
        /\ (BUFFER_SIZE <= length chunk)%nat
        /\ zero ∉ take BUFFER_SIZE chunk.
Proof.
  rewrite c_string_None_iff. destruct r as [| |chunk]; unfold buffer_after.
  - split.
    + intros H. exfalso. apply H. apply elem_of_replicate.
      split; [reflexivity|discriminate].
    + intros (chunk & Hr & _). discriminate.
  - split.
    + intros H. exfalso. apply H. apply elem_of_replicate.
      split; [reflexivity|discriminate].
    + intros (chunk & Hr & _). discriminate.
  - split.
    + intros H. exists chunk. split; [reflexivity|].
      destruct (le_lt_dec BUFFER_SIZE (length chunk)) as [Hle|Hlt].
      * split; [exact Hle|]. intros Hin. apply H.
        apply elem_of_app. now left.
      * exfalso. apply H. apply elem_of_app. right.
        apply elem_of_replicate. split; [reflexivity|].
        rewrite length_take. lia.
    + intros (chunk' & Hr & Hle & Hz). inversion Hr; subst chunk'.
      intros Hin. apply elem_of_app in Hin as [Hin|Hin]; [contradiction|].
      apply elem_of_replicate in Hin as [_ Hin]. apply Hin.
      rewrite length_take. lia.
Qed.

(** When the loop handles the result of a read from [clients[i]], the
    handling is undefined in exactly one case: the read filled the
    buffer, 1024 bytes, with no NUL byte among them, so that
    [std::string message(buffer)] runs past the array.  For every other
    result of read the handling returns: by the departure path when read
    returned zero or less, by the data path otherwise. *)
Theorem only_a_full_buffer_without_nul_is_undefined (i : nat) c r s :
  clients s !! i = Some c ->
  (session (Z.of_nat i) c r s = Undefined
   <-> exists chunk,
         r = ReadBytes chunk
         /\ (BUFFER_SIZE <= length chunk)%nat
         /\ zero ∉ take BUFFER_SIZE chunk)
  /\ (session (Z.of_nat i) c r s ≠ Undefined ->
      exists i' s1,
        session (Z.of_nat i) c r s = Ret i' s1
        /\ (valread r <= 0 ->
            i' = Z.of_nat i - 1 /\ clients s1 = delete i (clients s))
        /\ (0 < valread r -> i' = Z.of_nat i /\ clients s1 = clients s)).
Proof.
  intros Hi. rewrite <- buffer_without_nul_iff. rewrite session_run.
  destruct (valread r <=? 0) eqn:Hv.
  - rewrite on_disconnect_run, (index_in_range _ _ _ Hi), Nat2Z.id.
    apply Z.leb_le in Hv. split.
    + split; [discriminate|]. intros Hnone.
      apply buffer_without_nul_iff in Hnone as (chunk & -> & Hle & _).
      unfold valread in Hv. rewrite length_take in Hv.
      unfold BUFFER_SIZE in *. lia.
    + intros _. eexists. eexists. split; [reflexivity|].
      cbn [clients]. split; [auto|]. intros Hpos. lia.
  - apply Z.leb_gt in Hv.
    destruct (c_string (buffer_after r)) as [message|].
    + split; [split; discriminate|].
      intros _. eexists. eexists. split; [reflexivity|].
      cbn [clients]. split; [intros Hle; lia|auto].
    + split; [split; reflexivity|]. intros H. now contradiction H.
Qed.

Lemma only_a_full_buffer_without_nul_is_undefined_witness :
  session 0 4 (ReadBytes (replicate BUFFER_SIZE "a"%char)) alice_and_bob
  = Undefined.
Proof.
  apply (only_a_full_buffer_without_nul_is_undefined
           0 4 (ReadBytes (replicate BUFFER_SIZE "a"%char)) alice_and_bob).
  - reflexivity.
  - exists (replicate BUFFER_SIZE "a"%char). split; [reflexivity|].
    split; [vm_compute; lia|].
    apply (bool_decide_unpack _). vm_compute. exact I.
Defined.

(** The message taken from a read holds no NUL byte, is shorter than the
    buffer and no longer than the number of bytes read, and is the
    beginning of the chunk that arrived; it is empty when nothing
    arrived. *)
Theorem message_is_the_beginning_of_the_chunk r message :
  c_string (buffer_after r) = Some message ->
  (zero ∉ list_ascii_of_string message)
  /\ (String.length message < BUFFER_SIZE)%nat
  /\ (String.length message <= Z.to_nat (valread r))%nat
  /\ match r with
     | ReadBytes chunk => list_ascii_of_string message `prefix_of` chunk
     | _ => message = EmptyString
     end.
Proof.
  intros Hm. destruct (c_string_Some _ _ Hm) as [Hz [rest Hrest]].
  split; [exact Hz|]. split.
  { pose proof (length_buffer_after r) as Hlen. rewrite Hrest in Hlen.
    rewrite length_app, length_list_ascii_of_string in Hlen.
    simpl in Hlen. lia. }
  destruct r as [| |chunk].
  - unfold buffer_after in Hm. rewrite c_string_zeros in Hm.
    inversion Hm. split; [simpl; lia|reflexivity].
  - unfold buffer_after in Hm. rewrite c_string_zeros in Hm.
    inversion Hm. split; [simpl; lia|reflexivity].
  - unfold buffer_after in Hm. apply c_string_prefix in Hm.
    split.
    + apply prefix_length in Hm.
      rewrite length_list_ascii_of_string in Hm.
      unfold valread. rewrite Nat2Z.id. exact Hm.
    + etransitivity; [exact Hm|]. apply prefix_take.
Qed.

Lemma message_is_the_beginning_of_the_chunk_witness :
  list_ascii_of_string "a" `prefix_of` ["a"%char; zero; "b"%char].
Proof.
  apply (message_is_the_beginning_of_the_chunk
           (ReadBytes ["a"%char; zero; "b"%char]) "a").
  vm_compute. reflexivity.
Defined.

(** ** The descriptors given to select *)

Lemma fold_max_fd (l : list Z) :
  forall a,
    a <= fold_left (fun max_fd client =>
                      if client >? max_fd then client else max_fd) l a
    /\ (forall c, c ∈ l ->
          c <= fold_left (fun max_fd client =>
                            if client >? max_fd then client else max_fd) l a)
    /\ (fold_left (fun max_fd client =>
                     if client >? max_fd then client else max_fd) l a = a
        ∨ fold_left (fun max_fd client =>
                       if client >? max_fd then client else max_fd) l a ∈ l).
Proof.
  induction l as [|c l IH]; intros a.
  - simpl. split; [lia|]. split; [|now left]. intros c Hc. inversion Hc.
  - cbn [fold_left].
    destruct (IH (if c >? a then c else a)) as (Hle & Hall & Hin).
    assert (Hca : a <= (if c >? a then c else a)
                  /\ c <= (if c >? a then c else a)).
    { destruct (c >? a) eqn:Hgt; [apply Z.gtb_lt in Hgt; lia|].
      pose proof (Zgt_cases c a) as Hcase. rewrite Hgt in Hcase. lia. }
    split; [lia|]. split.
    + intros d Hd. apply elem_of_cons in Hd as [->|Hd]; [lia|now apply Hall].
    + destruct Hin as [Heq|Hin].
      * rewrite Heq. destruct (c >? a); [right; left|now left].
      * right. now right.
Qed.

(** The first argument of select, [max_fd + 1], is above every
    descriptor of the set handed to select, the listening socket and all
    of the ConnectionSet, and [max_fd] is one of them: select examines
    each of them and no more than needed. *)
Theorem select_covers_the_interest_set server_fd (l : list Z) :
  let nfds := max_fd_of server_fd l + 1 in
  (forall fd, fd ∈ ({[server_fd]} ∪ list_to_set l : gset Z) -> fd < nfds)
  /\ nfds - 1 ∈ ({[server_fd]} ∪ list_to_set l : gset Z).
Proof.
  intros nfds. unfold nfds, max_fd_of.
  destruct (fold_max_fd l server_fd) as (Hle & Hall & Hin). split.
  - intros fd Hfd. apply elem_of_union in Hfd as [Hfd|Hfd].
    + apply elem_of_singleton in Hfd. subst fd. lia.
    + apply elem_of_list_to_set in Hfd. specialize (Hall fd Hfd). lia.
  - replace (fold_left _ l server_fd + 1 - 1)
      with (fold_left (fun max_fd client =>
                         if client >? max_fd then client else max_fd)
                      l server_fd) by lia.
    destruct Hin as [->|Hin]; [set_solver|].
    apply elem_of_union. right. now apply elem_of_list_to_set.
Qed.

(** ** Join, chat, leave *)

(** The username that a connection gave with its first chunk is the one
    that prefixes the chat line made of its next chunk; the two reads
    change the UsernameMap at that connection only and leave the
    ConnectionSet as it is. *)
Theorem chat_line_carries_the_joined_username i c r1 r2 name message s :
  client_names s !! c = None ->
  0 < valread r1 -> c_string (buffer_after r1) = Some name ->
  0 < valread r2 -> c_string (buffer_after r2) = Some message ->
  exists s1 s2,
    session i c r1 s = Ret i s1
    /\ session i c r2 s1 = Ret i s2
    /\ trace s2
       = trace s1
         ++ EvCout [LStr name; LStr ": "; LStr message]
         :: EvBroadcast (name +:+ ": " +:+ message) c
         :: deliveries (name +:+ ": " +:+ message) c (clients s)
    /\ client_names s2 = <[c := name]> (client_names s)
    /\ clients s2 = clients s.
Proof.
  intros Hn Hv1 Hm1 Hv2 Hm2. eexists. eexists. split.
  { rewrite session_run, (valread_pos_ltb _ Hv1), Hm1. reflexivity. }
  split.
  { rewrite session_run, (valread_pos_ltb _ Hv2), Hm2. reflexivity. }
  cbn [trace client_names clients].
  unfold data_names, data_events. cbn [client_names clients].
  rewrite Hn. cbv iota. rewrite lookup_insert_eq.
  repeat split.
Qed.

Lemma chat_line_carries_the_joined_username_witness :
  exists s1 s2,
    session 1 5 (ReadBytes bob_chunk) alice_then_5 = Ret 1 s1
    /\ session 1 5 (ReadBytes hi_chunk) s1 = Ret 1 s2
    /\ sent_to 4 (trace s2) = ["bob has joined the chat!"; "bob: hi"].
Proof.
  destruct (chat_line_carries_the_joined_username
              1 5 (ReadBytes bob_chunk) (ReadBytes hi_chunk) "bob" "hi"
              alice_then_5)
    as (s1 & s2 & H1 & H2 & Htr & _).
  - reflexivity.
  - reflexivity.
  - vm_compute. reflexivity.
  - reflexivity.
  - vm_compute. reflexivity.
  - exists s1, s2. split; [exact H1|]. split; [exact H2|].
    rewrite Htr. rewrite session_run in H1. vm_compute in H1.
    inversion H1; subst s1. reflexivity.
Defined.

(** A connection that joins and then leaves puts the UsernameMap back to
    what it was before it joined and takes its element out of the
    ConnectionSet; its departure is announced, under the name it joined
    with, exactly when that name is not empty. *)
Theorem join_then_leave_restores_the_usernames (i : nat) c r1 r2 name s :
  clients s !! i = Some c ->
  client_names s !! c = None ->
  0 < valread r1 -> c_string (buffer_after r1) = Some name ->
  valread r2 <= 0 ->
  exists s1 s2 evs,
    session (Z.of_nat i) c r1 s = Ret (Z.of_nat i) s1
    /\ session (Z.of_nat i) c r2 s1 = Ret (Z.of_nat i - 1) s2
    /\ trace s2 = trace s1 ++ evs
    /\ client_names s2 = client_names s
    /\ clients s2 = delete i (clients s)
    /\ List.filter is_broadcast evs
       = if decide (name = EmptyString) then []
         else [EvBroadcast (name +:+ " has left the chat") (-1)].
Proof.
  intros Hi Hn Hv1 Hm1 Hv2. eexists. eexists. eexists. split.
  { rewrite session_run, (valread_pos_ltb _ Hv1), Hm1. reflexivity. }
  split.
  { apply session_departure; [exact Hi|exact Hv2]. }
  cbn [trace client_names clients]. split; [reflexivity|].
  unfold data_names. rewrite Hn. split.
  { rewrite delete_insert_eq. now apply delete_id. }
  split; [reflexivity|].
  unfold departure_events, leaving_name. cbn [client_names clients].
  rewrite lookup_insert_eq. unfold default, from_option, id.
  rewrite !List.filter_app.
  destruct (decide (name = EmptyString)); [reflexivity|].
  cbn [app List.filter is_broadcast].
  rewrite filter_broadcast_deliveries. reflexivity.
Qed.

Lemma join_then_leave_restores_the_usernames_witness :
  exists s1 s2 evs,
    session 1 5 (ReadBytes bob_chunk) alice_then_5 = Ret 1 s1
    /\ session 1 5 ReadEof s1 = Ret 0 s2
    /\ trace s2 = trace s1 ++ evs
    /\ client_names s2 = client_names alice_then_5
    /\ clients s2 = [4].
Proof.
  destruct (join_then_leave_restores_the_usernames
              1 5 (ReadBytes bob_chunk) ReadEof "bob" alice_then_5)
    as (s1 & s2 & evs & H1 & H2 & Htr & Hnm & Hcl & _).
  - reflexivity.
  - reflexivity.
  - reflexivity.
  - vm_compute. reflexivity.
  - simpl. lia.
  - exists s1, s2, evs. repeat split; assumption.
Defined.

(** ** Closes and failed reads *)

Lemma failed_reads_app fd t1 t2 :
  failed_reads fd (t1 ++ t2) = (failed_reads fd t1 + failed_reads fd t2)%nat.
Proof. unfold failed_reads. now rewrite List.filter_app, length_app. Qed.

Lemma failed_reads_departure_events fd i c s :
  failed_reads fd (departure_events i c s) = 0%nat.
Proof.
  unfold failed_reads, departure_events.
  destruct (client_names s !! c);
    destruct (decide (leaving_name c s = EmptyString));
    count_events; reflexivity.
Qed.

Lemma failed_reads_data_events fd c message s :
  failed_reads fd (data_events c message s) = 0%nat.
Proof.
  unfold failed_reads, data_events.
  destruct (client_names s !! c); count_events; reflexivity.
Qed.

Lemma run_keeps_closes os server_fd n :
  keeps closes_match_failed_reads (run os server_fd n).
Proof.
  apply run_keeps.
  - intros read_fds i s1 v s2 Hi Hs Hv.
    destruct (visit_cases os read_fds i s1 v s2 Hi Hv)
      as (c & _ & Hc
          & [(_ & -> & _)
            |[(_ & Hval & _ & ->)|(_ & Hval & _ & message & _ & ->)]]).
    + exact Hs.
    + intros fd. specialize (Hs fd). cbn [trace].
      rewrite closed_app, failed_reads_app.
      change (EvRead c ?r :: ?t) with ([EvRead c r] ++ t).
      rewrite closed_app, failed_reads_app.
      rewrite closed_departure_events, failed_reads_departure_events.
      change (closed fd [EvRead c ?r]) with 0%nat.
      unfold failed_reads at 2. cbn [List.filter].
      rewrite (valread_nonpos_leb _ Hval). unfold bool_decide.
      destruct (decide_rel eq c fd), (decide (c = fd)); try congruence;
        simpl; lia.
    + intros fd. specialize (Hs fd). cbn [trace].
      rewrite closed_app, failed_reads_app.
      change (EvRead c ?r :: ?t) with ([EvRead c r] ++ t).
      rewrite closed_app, failed_reads_app.
      rewrite closed_data_events, failed_reads_data_events.
      change (closed fd [EvRead c ?r]) with 0%nat.
      unfold failed_reads at 2. cbn [List.filter].
      rewrite (valread_pos_ltb _ Hval). rewrite andb_false_r. simpl. lia.
  - intros s1 nfds Hs fd. specialize (Hs fd). cbn [add_events trace].
    rewrite closed_app, failed_reads_app, Hs. reflexivity.
  - intros s1 line Hs fd. specialize (Hs fd). cbn [add_events trace].
    rewrite closed_app, failed_reads_app, Hs. reflexivity.
  - intros s1 Hs _ fd. specialize (Hs fd). cbn [trace].
    rewrite closed_app, failed_reads_app, Hs. reflexivity.
  - intros s1 Hs _ fd. specialize (Hs fd). cbn [add_events trace].
    rewrite closed_app, failed_reads_app, Hs. reflexivity.
Qed.

(** Whatever the clients and the operating system do, the server closes
    a descriptor exactly as often as a read from it returned zero or
    less: each such read is answered by one close, and a connection whose
    reads deliver data is never closed. *)
Theorem a_descriptor_is_closed_once_per_failed_read os server_fd n s0 s :
  closes_match_failed_reads s0 ->
  run os server_fd n s0 = Ret tt s ->
  closes_match_failed_reads s.
Proof.
  intros H0 Hrun.
  pose proof (run_keeps_closes os server_fd n s0 H0) as K.
  rewrite Hrun in K. exact K.
Qed.

Lemma a_descriptor_is_closed_once_per_failed_read_witness :
  exists s,
    run two_clients_os 3 6 initial = Ret tt s
    /\ closed 5 (trace s) = 1%nat
    /\ closed 4 (trace s) = 0%nat
    /\ closes_match_failed_reads s.
Proof.
  eexists. split; [vm_compute; reflexivity|].
  split; [reflexivity|]. split; [reflexivity|].
  apply (a_descriptor_is_closed_once_per_failed_read
           two_clients_os 3 6 initial).
  - intros fd. reflexivity.
  - vm_compute. reflexivity.
Defined.

(** ** Every broadcast is delivered *)

Lemma broadcasts_delivered_app t1 t2 l :
  broadcasts_delivered t1 l ->
  broadcasts_delivered t2 (replay t1 l) ->
  broadcasts_delivered (t1 ++ t2) l.
Proof.
  revert l. induction t1 as [|e t1 IH]; intros l H1 H2; [exact H2|].
  rewrite replay_cons in H2. cbn [app broadcasts_delivered] in *.
  destruct H1 as [He H1]. split; [|now apply IH].
  destruct e; try exact I. now apply prefix_app_r.
Qed.

Lemma broadcasts_delivered_sends message (l0 l : list Z) :
  broadcasts_delivered (map (fun client => EvSend client message) l0) l.
Proof.
  induction l0 as [|d l0 IH]; [exact I|].
  cbn [map broadcasts_delivered replay]. now split.
Qed.

Lemma broadcasts_delivered_deliveries message excl (l0 l : list Z) :
  broadcasts_delivered (deliveries message excl l0) l.
Proof. unfold deliveries. apply broadcasts_delivered_sends. Qed.

Lemma broadcasts_delivered_departure_events i c s :
  broadcasts_delivered (departure_events i c s) (clients s).
Proof.
  unfold departure_events.
  destruct (client_names s !! c);
    destruct (decide (leaving_name c s = EmptyString));
    cbn [app broadcasts_delivered replay]; repeat split;
    try (apply prefix_app_r; reflexivity).
  all: apply broadcasts_delivered_app;
    [apply broadcasts_delivered_deliveries|now repeat split].
Qed.

Lemma broadcasts_delivered_data_events c message s :
  broadcasts_delivered (data_events c message s) (clients s).
Proof.
  unfold data_events. destruct (client_names s !! c);
    cbn [broadcasts_delivered replay]; repeat split;
    try reflexivity; apply broadcasts_delivered_deliveries.
Qed.

Lemma run_keeps_heard os server_fd n : keeps heard (run os server_fd n).
Proof.
  apply run_keeps.
  - intros read_fds i s1 v s2 Hi [Hr Hs] Hv.
    destruct (visit_cases os read_fds i s1 v s2 Hi Hv)
      as (c & _ & Hc
          & [(_ & -> & _)
            |[(_ & _ & _ & ->)|(_ & _ & _ & message & _ & ->)]]).
    + now split.
    + split; cbn [clients trace].
      * rewrite replay_app, <- Hr. rewrite replay_cons.
        cbn [replay]. now rewrite replay_departure_events.
      * apply broadcasts_delivered_app; [exact Hs|]. rewrite <- Hr.
        cbn [broadcasts_delivered replay]. split; [exact I|].
        apply broadcasts_delivered_departure_events.
    + split; cbn [clients trace].
      * rewrite replay_app, <- Hr. rewrite replay_cons.
        cbn [replay]. now rewrite replay_data_events.
      * apply broadcasts_delivered_app; [exact Hs|]. rewrite <- Hr.
        cbn [broadcasts_delivered replay]. split; [exact I|].
        apply broadcasts_delivered_data_events.
  - intros s1 nfds [Hr Hs]. split; cbn [add_events clients trace].
    + now rewrite replay_app, <- Hr.
    + apply broadcasts_delivered_app; [exact Hs|]. now split.
  - intros s1 line [Hr Hs]. split; cbn [add_events clients trace].
    + now rewrite replay_app, <- Hr.
    + apply broadcasts_delivered_app; [exact Hs|]. now split.
  - intros s1 [Hr Hs] _. split; cbn [clients trace].
    + now rewrite replay_app, <- Hr.
    + apply broadcasts_delivered_app; [exact Hs|]. now repeat split.
  - intros s1 [Hr Hs] _. split; cbn [add_events clients trace].
    + now rewrite replay_app, <- Hr.
    + apply broadcasts_delivered_app; [exact Hs|]. now split.
Qed.

(** Whatever the clients and the operating system do, each call of
    broadcast in the history of the loop is followed at once, before the
    next descriptor is read, by one send of its message to each
    descriptor that the ConnectionSet holds at that moment, the excluded
    one apart, in the order of the set. *)
Theorem every_broadcast_is_delivered_at_once os server_fd n s0 s :
  heard s0 ->
  run os server_fd n s0 = Ret tt s ->
  heard s.
Proof.
  intros H0 Hrun.
  pose proof (run_keeps_heard os server_fd n s0 H0) as K.
  rewrite Hrun in K. exact K.
Qed.

Lemma every_broadcast_is_delivered_at_once_witness :
  exists s,
    run two_clients_os 3 6 initial = Ret tt s
    /\ List.filter is_broadcast (trace s)
       = [EvBroadcast "alice has joined the chat!" 4;
          EvBroadcast "bob has joined the chat!" 5;
          EvBroadcast "alice: hi" 4;
          EvBroadcast "bob has left the chat" (-1)]
    /\ heard s.
Proof.
  eexists. split; [vm_compute; reflexivity|]. split; [reflexivity|].
  apply (every_broadcast_is_delivered_at_once two_clients_os 3 6 initial).
  - split; [reflexivity|exact I].
  - vm_compute. reflexivity.
Defined.

(** ** main *)

Lemma run_keeps_history os server_fd n history :
  keeps (fun s => exists evs, trace s = history ++ evs) (run os server_fd n).
Proof.
  apply run_keeps.
  - intros read_fds i s1 v s2 Hi [evs Hs] Hv.
    destruct (visit_cases os read_fds i s1 v s2 Hi Hv)
      as (c & _ & Hc
          & [(_ & -> & _)
            |[(_ & _ & _ & ->)|(_ & _ & _ & message & _ & ->)]]);
      cbn [trace]; rewrite ?Hs, <- ?app_assoc; eauto.
  - intros s1 nfds [evs Hs]. cbn [add_events trace].
    rewrite Hs, <- app_assoc. eauto.
  - intros s1 line [evs Hs]. cbn [add_events trace].
    rewrite Hs, <- app_assoc. eauto.
  - intros s1 [evs Hs] _. cbn [trace]. rewrite Hs, <- app_assoc. eauto.
  - intros s1 [evs Hs] _. cbn [add_events trace].
    rewrite Hs, <- app_assoc. eauto.
Qed.

(** main ends in one of two ways.  When socket returns -1, or bind or
    listen a negative value, it makes no further call, logs the one line
    of that failure and returns 1, without entering the loop.  Otherwise
    it logs that it listens on port 8080 and enters the loop on the
    descriptor of socket; and then, after any number of passes and
    whatever the clients and the operating system do, no tracked
    descriptor is negative, every username belongs to a tracked
    connection, every accepted descriptor is tracked or closed, only
    tracked descriptors have been used, every broadcast was delivered at
    once and each close answers a failed read. *)
Theorem main_exits_at_set_up_or_serves b os n :
  (exists calls message,
     main b os n = (calls, Exited 1 [EvCerr [LStr message]])
     /\ ((socket_ret b = -1
          /\ calls = [CallSocket]
          /\ message = "Socket creation failed!")
         ∨ (socket_ret b ≠ -1 /\ bind_ret b < 0
            /\ calls = [CallSocket; CallBind (socket_ret b) 8080]
            /\ message = "Bind failed!")
         ∨ (socket_ret b ≠ -1 /\ 0 <= bind_ret b /\ listen_ret b < 0
            /\ calls = [CallSocket; CallBind (socket_ret b) 8080;
                        CallListen (socket_ret b) 3]
            /\ message = "Listen failed!")))
  ∨ (socket_ret b ≠ -1 /\ 0 <= bind_ret b /\ 0 <= listen_ret b
     /\ exists o,
          main b os n
          = ([CallSocket; CallBind (socket_ret b) 8080;
              CallListen (socket_ret b) 3], InLoop o)
          /\ match o with
             | Ret _ s =>
                 (exists evs,
                    trace s
                    = EvCout [LStr "Server listening on port 8080..."] :: evs)
                 /\ nonneg s /\ names_tracked s /\ accounted s /\ served s
                 /\ heard s /\ closes_match_failed_reads s
             | _ => True
             end).
Proof.
  unfold main.
  destruct (socket_ret b =? -1) eqn:Hsock.
  { left. apply Z.eqb_eq in Hsock. eexists. eexists.
    split; [reflexivity|]. left. auto. }
  apply Z.eqb_neq in Hsock.
  destruct (bind_ret b <? 0) eqn:Hbind.
  { left. apply Z.ltb_lt in Hbind. eexists. eexists.
    split; [reflexivity|]. right. left. auto. }
  apply Z.ltb_ge in Hbind.
  destruct (listen_ret b <? 0) eqn:Hlisten.
  { left. apply Z.ltb_lt in Hlisten. eexists. eexists.
    split; [reflexivity|]. right. right. auto. }
  apply Z.ltb_ge in Hlisten.
  right. split; [exact Hsock|]. split; [exact Hbind|].
  split; [exact Hlisten|]. eexists. split; [reflexivity|].
  unfold cout. rewrite (bind_Ret _ _ _ _ _ (emit_run _ initial)).
  set (s0 := add_events initial
               [EvCout [LStr "Server listening on port 8080..."]]).
  assert (Hh : exists evs, trace s0 = trace s0 ++ evs)
    by (exists []; now rewrite app_nil_r).
  pose proof (run_keeps_history os (socket_ret b) n (trace s0) s0 Hh) as Kh.
  assert (Hnn : nonneg s0) by constructor.
  pose proof (keeps_run os (socket_ret b) n s0 Hnn) as Kn.
  assert (Hnt : names_tracked s0).
  { intros d [u Hu]. cbn in Hu. rewrite lookup_empty in Hu. discriminate. }
  pose proof (run_keeps_names_tracked os (socket_ret b) n s0 Hnt) as Kt.
  assert (Hac : accounted s0) by (intros fd Hfd; reflexivity).
  pose proof (run_keeps_accounted os (socket_ret b) n s0 Hac) as Ka.
  assert (Hse : served s0) by (split; [reflexivity|now split]).
  pose proof (run_keeps_served os (socket_ret b) n s0 Hse) as Ks.
  assert (Hhe : heard s0) by (split; [reflexivity|now split]).
  pose proof (run_keeps_heard os (socket_ret b) n s0 Hhe) as Kb.
  assert (Hcl : closes_match_failed_reads s0) by (intros fd; reflexivity).
  pose proof (run_keeps_closes os (socket_ret b) n s0 Hcl) as Kc.
  destruct (run os (socket_ret b) n s0) as [[] s| |]; [|exact I|exact I].
  split; [exact Kh|]. split; [exact Kn|]. split; [exact Kt|].
  split; [exact Ka|]. split; [exact Ks|]. split; [exact Kb|exact Kc].
Qed.
